(** * family-budget: ingestion parser and auto-categorization engine

    A shallow embedding of [utils/categorization.py] (class [AutoCategorizer])
    and [utils/csv_parser.py] (class [CSVParser]), with the properties of the
    specification settled against it.

    Conventions of the embedding.
    - Text is [list ascii] over the 7-bit ASCII alphabet (the alphabet of the
      bank exports the parser reads); [str.upper], [str.lower], [str.strip],
      [str.split] and the regular expression classes [\d] and [\s] are given
      their Python meaning on that alphabet.
    - A MongoDB collection is the list of its documents in natural (insertion)
      order; the [_id] of a document is its position in that list.  The engine
      never deletes a document, so positions are stable.
    - [datetime.utcnow()] is the argument [now] of the operation that reads
      the clock.
    - Python floats are IEEE-754 binary64 values, [spec_float] of the standard
      library with precision 53 and maximal exponent 1024.
    - [fuzz.ratio] (fuzzywuzzy), [dateutil.parser.parse] and
      [datetime.strptime] are libraries outside the repository: the
      development is parametric in them.
    - [csv.reader] is a library as well: a file is given by what the reader
      does on its content, the rows it yields and the [csv.Error] it may
      raise after them. *)

From Stdlib Require Import ZArith Ascii String Bool Lia Sorting.Sorted.
From Stdlib Require Import Floats.SpecFloat.
From stdpp Require Import base tactics option list strings gmap.

Local Open Scope Z_scope.
Local Open Scope list_scope.

(** ** Python text primitives *)

Module Py.

Abbreviation text := (list ascii).

(** A text literal. *)
Definition str (s : string) : text := list_ascii_of_string s.

Definition code (c : ascii) : Z := Z.of_N (N_of_ascii c).

(** [\d] and [str.isdigit] on ASCII. *)
Definition is_digit (c : ascii) : bool :=
  (48 <=? code c) && (code c <=? 57).

(** [\s] and [str.isspace] on ASCII: tab, line feed, vertical tab, form
    feed, carriage return, the four separators 0x1c-0x1f, and space. *)
Definition is_space (c : ascii) : bool :=
  ((9 <=? code c) && (code c <=? 13)) || ((28 <=? code c) && (code c <=? 32)).

Definition upper_char (c : ascii) : ascii :=
  if (97 <=? code c) && (code c <=? 122)
  then ascii_of_N (Z.to_N (code c - 32)) else c.

Definition lower_char (c : ascii) : ascii :=
  if (65 <=? code c) && (code c <=? 90)
  then ascii_of_N (Z.to_N (code c + 32)) else c.

Definition upper (s : text) : text := map upper_char s.
Definition lower (s : text) : text := map lower_char s.

Definition eqb_char (a b : ascii) : bool := Ascii.eqb a b.

Fixpoint eqb_text (a b : text) : bool :=
  match a, b with
  | [], [] => true
  | x :: a', y :: b' => eqb_char x y && eqb_text a' b'
  | _, _ => false
  end.

Fixpoint lstrip (s : text) : text :=
  match s with
  | [] => []
  | c :: t => if is_space c then lstrip t else s
  end.

Definition rstrip (s : text) : text := rev (lstrip (rev s)).

(** [s.strip()] *)
Definition strip (s : text) : text := rstrip (lstrip s).

(** [s.split()]: the maximal runs of non-space characters. *)
Fixpoint split (s : text) : list text :=
  match s with
  | [] => []
  | c :: t =>
    if is_space c then split t
    else match t with
         | [] => [[c]]
         | d :: _ =>
           if is_space d then [c] :: split t
           else match split t with
                | w :: ws => (c :: w) :: ws
                | [] => [[c]]
                end
         end
  end.

(** [sep.join(ws)] *)
Fixpoint join (sep : text) (ws : list text) : text :=
  match ws with
  | [] => []
  | [w] => w
  | w :: ws' => w ++ sep ++ join sep ws'
  end.

(** [s.startswith(p)] *)
Fixpoint startswith (s p : text) : bool :=
  match p, s with
  | [], _ => true
  | x :: p', y :: s' => eqb_char x y && startswith s' p'
  | _ :: _, [] => false
  end.

(** [s.endswith(p)] *)
Definition endswith (s p : text) : bool := startswith (rev s) (rev p).

(** [p in s] *)
Fixpoint contains (s p : text) : bool :=
  startswith s p ||
  match s with
  | [] => false
  | _ :: t => contains t p
  end.

(** [s.replace(c, '')] for a one-character [c]. *)
Definition remove_char (c : ascii) (s : text) : text :=
  List.filter (fun x => negb (eqb_char x c)) s.

(** [s[1:-1]] *)
Definition slice_1_m1 (s : text) : text :=
  match s with
  | [] => []
  | _ :: t => removelast t
  end.

(** Decimal rendering of a non-negative counter, as [str(n)] prints it. *)
Definition digit_char (d : nat) : ascii := ascii_of_nat (48 + d).

Fixpoint decimal_fuel (fuel n : nat) (acc : text) : text :=
  match fuel with
  | O => acc
  | S f =>
    let acc' := digit_char (n mod 10) :: acc in
    if (n / 10 =? 0)%nat then acc' else decimal_fuel f (n / 10)%nat acc'
  end.

Definition decimal (n : nat) : text := decimal_fuel (S n) n [].

End Py.

Export Py.


(** ** Python floats *)

Module PyFloat.

Definition prec : Z := 53.
Definition emax : Z := 1024.

Abbreviation pyfloat := spec_float.

(** The float nearest to the decimal [m * 10^e] (round to nearest, ties to
    even), for a natural number [m]: what a Python float literal and
    [float()] denote. *)
Definition of_decimal (m : N) (e : Z) : pyfloat :=
  match m with
  | N0 => S754_zero false
  | Npos p =>
    if 0 <=? e then binary_normalize prec emax (Zpos p * 10 ^ e) 0 false
    else match 10 ^ (- e) with
         | Zpos q =>
           SFdiv prec emax (S754_finite false p 0) (S754_finite false q 0)
         | _ => S754_nan
         end
  end.

(** [float(n)] for an integer [n]. *)
Definition of_Z (n : Z) : pyfloat := binary_normalize prec emax n 0 false.

Definition fdiv (x y : pyfloat) : pyfloat := SFdiv prec emax x y.

(** The literals of the source. *)
Definition f0_0 : pyfloat := of_decimal 0 0.        (* 0.0 *)
Definition f1_0 : pyfloat := of_decimal 1 0.        (* 1.0 *)
Definition f0_9 : pyfloat := of_decimal 9 (-1).     (* 0.9 *)
Definition f100_0 : pyfloat := of_decimal 100 0.    (* 100.0 *)

(** [x < y], [x == y] on floats. *)
Definition flt (x y : pyfloat) : bool := SFltb x y.
Definition feq (x y : pyfloat) : bool := SFeqb x y.

Definition is_nan (x : pyfloat) : bool :=
  match x with S754_nan => true | _ => false end.

Definition is_zero (x : pyfloat) : bool :=
  match x with S754_zero _ => true | _ => false end.


(** The sign bit of a number ([None] for NaN, whose sign carries no
    meaning). *)
Definition sign_bit (x : pyfloat) : option bool :=
  match x with
  | S754_zero s | S754_infinity s | S754_finite s _ _ => Some s
  | S754_nan => None
  end.

End PyFloat.

Export PyFloat.

(** ** The auto-categorization engine ([utils/categorization.py]) *)

Module Categorization.

Inductive match_type := exact | contains_ | fuzzy | regex | none.

Definition match_type_eqb (a b : match_type) : bool :=
  match a, b with
  | exact, exact | contains_, contains_ | fuzzy, fuzzy
  | regex, regex | none, none => true
  | _, _ => false
  end.

(** A document of the [categorization_rules] collection. *)
Record rule := mk_rule {
  pattern : text;
  category_id : Z;
  rule_match_type : match_type;
  created_date : Z;
  last_used : Z;
  use_count : Z
}.

(** The dictionary [categorize] returns. *)
Record result := mk_result {
  res_category_id : Z;
  confidence : pyfloat;
  res_match_type : match_type
}.

(** A document of the [transactions] collection: the fields the engine reads
    or writes, and the rest of the document. *)
Record transaction := mk_transaction {
  txn_date : Z;
  txn_description : text;
  txn_amount : pyfloat;
  txn_category_id : Z;
  txn_notes : text;
  txn_auto_categorized : bool;
  txn_confidence : pyfloat
}.

(** *** [_extract_merchant_pattern] *)

Definition hash : ascii := "#"%char.
Definition space : ascii := " "%char.

(** [re.sub(r'#\d+', '', s)].  [skipping] holds while the digits of a
    matched store number are being consumed. *)
Fixpoint sub_store_number (skipping : bool) (s : text) : text :=
  match s with
  | [] => []
  | c :: t =>
    if skipping && is_digit c then sub_store_number true t
    else if eqb_char c hash &&
            match t with d :: _ => is_digit d | [] => false end
         then sub_store_number true t
         else c :: sub_store_number false t
  end.

Definition is_date_sep (c : ascii) : bool :=
  eqb_char c "/"%char || eqb_char c "-"%char.

(** [\d{1,2}[/-]] at the head of [s]: the text after it and the number of
    characters consumed.  Two digits are tried first; when two digits are not
    followed by a separator the one-digit alternative cannot match either. *)
Definition day_or_month (s : text) : option (text * nat) :=
  match s with
  | a :: b :: c :: t =>
    if is_digit a && is_digit b && is_date_sep c then Some (t, 3%nat)
    else if is_digit a && is_date_sep b then Some (c :: t, 2%nat)
    else None
  | [a; b] => if is_digit a && is_date_sep b then Some ([], 2%nat) else None
  | _ => None
  end.

(** [\d{2,4}] at the head of [s], greedy: the number of digits taken. *)
Definition year_digits (s : text) : option nat :=
  match s with
  | a :: b :: t =>
    if is_digit a && is_digit b then
      match t with
      | c :: t' =>
        if is_digit c then
          match t' with
          | d :: _ => if is_digit d then Some 4%nat else Some 3%nat
          | [] => Some 3%nat
          end
        else Some 2%nat
      | [] => Some 2%nat
      end
    else None
  | _ => None
  end.

(** The length of the match of [\d{1,2}[/-]\d{1,2}[/-]\d{2,4}] at the head of
    [s], if it matches there. *)
Definition date_match (s : text) : option nat :=
  match day_or_month s with
  | Some (s1, n1) =>
    match day_or_month s1 with
    | Some (s2, n2) =>
      match year_digits s2 with
      | Some n3 => Some (n1 + n2 + n3)%nat
      | None => None
      end
    | None => None
    end
  | None => None
  end.

(** [re.sub(r'\d{1,2}[/-]\d{1,2}[/-]\d{2,4}', '', s)].  [skip] counts the
    characters of the current match still to be dropped. *)
Fixpoint sub_date (skip : nat) (s : text) : text :=
  match s with
  | [] => []
  | c :: t =>
    match skip with
    | S k => sub_date k t
    | O =>
      match date_match s with
      | Some n => sub_date (Nat.pred n) t
      | None => c :: sub_date O t
      end
    end
  end.

Fixpoint drop_digits (s : text) : text :=
  match s with
  | [] => []
  | c :: t => if is_digit c then drop_digits t else s
  end.

(** Does the whole of [s] match [\s+\d+\s*]? *)
Definition is_trailing_number (s : text) : bool :=
  match s with
  | c :: _ =>
    is_space c &&
    match lstrip s with
    | (d :: _) as r =>
      is_digit d && match lstrip (drop_digits r) with [] => true | _ => false end
    | [] => false
    end
  | [] => false
  end.

(** [re.sub(r'\s+\d+\s*$', '', s)]: the leftmost position from which the
    rest of the text is spaces, digits, spaces; the text is cut there. *)
Fixpoint sub_trailing_number (s : text) : text :=
  match s with
  | [] => []
  | c :: t => if is_trailing_number s then [] else c :: sub_trailing_number t
  end.

Definition _extract_merchant_pattern (description : text) : text :=
  let pattern := sub_store_number false description in
  let pattern := sub_date O pattern in
  let pattern := sub_trailing_number pattern in
  let pattern := join [space] (split pattern) in
  let words := split pattern in
  let pattern :=
    if (4 <? length words)%nat then join [space] (take 4 words) else pattern in
  strip pattern.


(** *** The collections *)

(** [collection.find(query)]: the matching documents with their [_id], in
    natural order. *)
Fixpoint enumerate {A} (i : nat) (db : list A) : list (nat * A) :=
  match db with
  | [] => []
  | d :: t => (i, d) :: enumerate (S i) t
  end.

Definition find {A} (query : A -> bool) (db : list A) : list (nat * A) :=
  List.filter (fun d => query (snd d)) (enumerate O db).

(** [collection.find_one(query)]: the first matching document. *)
Definition find_one {A} (query : A -> bool) (db : list A) : option (nat * A) :=
  head (find query db).

(** [cursor.sort('use_count', -1)]: descending, documents of equal count
    stay in natural order. *)
Fixpoint insert_desc (d : nat * rule) (l : list (nat * rule)) : list (nat * rule) :=
  match l with
  | [] => [d]
  | h :: t =>
    if use_count (snd h) <=? use_count (snd d) then d :: l
    else h :: insert_desc d t
  end.

Fixpoint sort_use_count_desc (l : list (nat * rule)) : list (nat * rule) :=
  match l with
  | [] => []
  | d :: t => insert_desc d (sort_use_count_desc t)
  end.

(** The update [{'$set': {'last_used': now}, '$inc': {'use_count': 1}}]. *)
Definition touch (now : Z) (r : rule) : rule :=
  {| pattern := pattern r; category_id := category_id r;
     rule_match_type := rule_match_type r; created_date := created_date r;
     last_used := now; use_count := use_count r + 1 |}.

(** [_update_rule_usage]: [update_one({'_id': rule_id}, ...)]. *)
Definition _update_rule_usage (now : Z) (rule_id : nat) (db : list rule) : list rule :=
  alter (touch now) rule_id db.

Definition is_type (m : match_type) (r : rule) : bool :=
  match_type_eqb (rule_match_type r) m.

Definition has_pattern (p : text) (m : match_type) (r : rule) : bool :=
  eqb_text (pattern r) p && is_type m r.

(** *** The three tiers and [categorize] *)

Section Engine.

(** [fuzz.ratio] of fuzzywuzzy, a similarity score on the scale 0-100. *)
Variable fuzz_ratio : text -> text -> Z.

Definition _exact_match (now : Z) (description : text) (db : list rule)
  : option result * list rule :=
  match find_one (has_pattern description exact) db with
  | Some (id, r) =>
    (Some {| res_category_id := category_id r; confidence := f1_0;
             res_match_type := exact |},
     _update_rule_usage now id db)
  | None => (None, db)
  end.

(** The test of the loop of [_contains_match]. *)
Definition pattern_in (description : text) (d : nat * rule) : bool :=
  Py.contains description (upper (pattern (snd d))).

Definition _contains_match (now : Z) (description : text) (db : list rule)
  : option result * list rule :=
  let rules := sort_use_count_desc (find (is_type contains_) db) in
  match List.find (pattern_in description) rules with
  | Some (id, r) =>
    (Some {| res_category_id := category_id r; confidence := f0_9;
             res_match_type := contains_ |},
     _update_rule_usage now id db)
  | None => (None, db)
  end.

(** The state of the loop of [_fuzzy_match]: [best_match], [best_score],
    [best_rule]. *)
Definition fuzzy_state : Type := option Z * Z * option (nat * rule).

Definition fuzzy_step (description : text) (st : fuzzy_state) (d : nat * rule)
  : fuzzy_state :=
  let '(_, best_score, _) := st in
  let score := fuzz_ratio (upper (pattern (snd d))) description in
  if best_score <? score then (Some (category_id (snd d)), score, Some d)
  else st.

Definition _fuzzy_match (now : Z) (description : text) (db : list rule)
  : option result * list rule :=
  let rules := find (is_type fuzzy) db in
  let '(best_match, best_score, best_rule) :=
    fold_left (fuzzy_step description) rules (None, 0, None) in
  if 80 <=? best_score then
    match best_match, best_rule with
    | Some c, Some (id, _) =>
      (Some {| res_category_id := c;
               confidence := fdiv (of_Z best_score) f100_0;
               res_match_type := fuzzy |},
       _update_rule_usage now id db)
    | _, _ => (None, db) (* not reached: a score above 0 sets both *)
    end
  else (None, db).

Definition categorize (now : Z) (description : text) (db : list rule)
  : result * list rule :=
  let description_clean := upper (strip description) in
  match _exact_match now description_clean db with
  | (Some r, db') => (r, db')
  | (None, _) =>
    match _contains_match now description_clean db with
    | (Some r, db') => (r, db')
    | (None, _) =>
      match _fuzzy_match now description_clean db with
      | (Some r, db') => (r, db')
      | (None, _) =>
        ({| res_category_id := 0; confidence := f0_0; res_match_type := none |},
         db)
      end
    end
  end.

End Engine.

(** *** [learn_from_categorization] *)

(** The update [{'$set': {'category_id': c, 'last_used': now},
    '$inc': {'use_count': 1}}]. *)
Definition recategorize (now : Z) (c : Z) (r : rule) : rule :=
  {| pattern := pattern r; category_id := c;
     rule_match_type := rule_match_type r; created_date := created_date r;
     last_used := now; use_count := use_count r + 1 |}.

(** The rule handed back to the caller (with its [_id]) and the collection
    afterwards. *)
Definition learn_from_categorization (now : Z) (description : text) (c : Z)
  (db : list rule) : (nat * rule) * list rule :=
  let description_clean := upper (strip description) in
  let merchant_pattern := _extract_merchant_pattern description_clean in
  match find_one (has_pattern merchant_pattern contains_) db with
  | Some (id, existing_rule) =>
    let db' :=
      if negb (category_id existing_rule =? c)
      then alter (recategorize now c) id db
      else db in
    ((id, existing_rule), db')
  | None =>
    let r := {| pattern := merchant_pattern; category_id := c;
                rule_match_type := contains_; created_date := now;
                last_used := now; use_count := 1 |} in
    ((length db, r), db ++ [r])
  end.

(** *** [batch_categorize_similar] *)

(** The update [{'$set': {'category_id': c, 'auto_categorized': True,
    'confidence': 0.9}}]. *)
Definition assign_category (c : Z) (t : transaction) : transaction :=
  {| txn_date := txn_date t; txn_description := txn_description t;
     txn_amount := txn_amount t; txn_category_id := c;
     txn_notes := txn_notes t; txn_auto_categorized := true;
     txn_confidence := f0_9 |}.

Definition float_same (x y : pyfloat) : bool :=
  match x, y with
  | S754_zero a, S754_zero b | S754_infinity a, S754_infinity b => Bool.eqb a b
  | S754_nan, S754_nan => true
  | S754_finite a m e, S754_finite b n f =>
    Bool.eqb a b && Pos.eqb m n && Z.eqb e f
  | _, _ => false
  end.

(** Does the update change the document?  It can only change the three
    fields it sets. *)
Definition is_assigned (c : Z) (t : transaction) : bool :=
  (txn_category_id t =? c) && Bool.eqb (txn_auto_categorized t) true &&
  float_same (txn_confidence t) f0_9.

(** [update_many({'_id': {'$in': ids}}, {'$set': ...})]: the collection
    afterwards, and [modified_count], which counts the documents the update
    changed. *)
Fixpoint update_many (ids : list nat) (c : Z) (i : nat) (db : list transaction)
  : list transaction * nat :=
  match db with
  | [] => ([], O)
  | t :: rest =>
    let '(rest', n) := update_many ids c (S i) rest in
    if existsb (Nat.eqb i) ids then
      (assign_category c t :: rest', if is_assigned c t then n else S n)
    else (t :: rest', n)
  end.

(** The query [{'category_id': 0, 'description': {'$regex':
    re.escape(pattern), '$options': 'i'}}]: the escaped pattern matches
    itself, without regard to letter case. *)
Definition uncategorized_like (merchant_pattern : text) (t : transaction) : bool :=
  (txn_category_id t =? 0) &&
  Py.contains (lower (txn_description t)) (lower merchant_pattern).

Definition batch_categorize_similar (description : text) (c : Z)
  (db : list transaction) : nat * list transaction :=
  let description_clean := upper (strip description) in
  let merchant_pattern := _extract_merchant_pattern description_clean in
  let uncategorized := find (uncategorized_like merchant_pattern) db in
  let transaction_ids := map fst uncategorized in
  match transaction_ids with
  | [] => (O, db)
  | _ =>
    let '(db', modified_count) := update_many transaction_ids c O db in
    (modified_count, db')
  end.

End Categorization.

(** ** The ingestion parser ([utils/csv_parser.py]) *)

Module CsvParser.

(** *** [float(s)] on text *)

(** [digit (["_"] digit)*], continued after a first digit: the digits read
    so far (last first) and the rest of the text. *)
Fixpoint digits_tail (acc : text) (s : text) : text * text :=
  match s with
  | c :: t =>
    if is_digit c then digits_tail (c :: acc) t
    else if eqb_char c "_"%char then
      match t with
      | d :: t' => if is_digit d then digits_tail (d :: acc) t' else (acc, s)
      | [] => (acc, s)
      end
    else (acc, s)
  | [] => (acc, s)
  end.

Definition digitpart (s : text) : option (text * text) :=
  match s with
  | c :: t => if is_digit c then Some (digits_tail [c] t) else None
  | [] => None
  end.

(** The number a list of decimal digits (last digit first) denotes. *)
Fixpoint digits_value (rev_digits : text) : N :=
  match rev_digits with
  | [] => 0%N
  | c :: t => (Z.to_N (code c - 48) + 10 * digits_value t)%N
  end.

Definition take_sign (s : text) : bool * text :=
  match s with
  | c :: t =>
    if eqb_char c "-"%char then (true, t)
    else if eqb_char c "+"%char then (false, t)
    else (false, s)
  | [] => (false, s)
  end.

(** [exponent ::= ("e" | "E") [sign] digitpart], up to the end of the text;
    an absent exponent is 0. *)
Definition exponent (s : text) : option Z :=
  match s with
  | [] => Some 0
  | c :: t =>
    if eqb_char (lower_char c) "e"%char then
      let '(neg, t1) := take_sign t in
      match digitpart t1 with
      | Some (ds, []) =>
        let e := Z.of_N (digits_value ds) in Some (if neg then - e else e)
      | _ => None
      end
    else None
  end.

(** [number ::= [digitpart] "." digitpart | digitpart ["."]]: the digits of
    the integer and fractional parts (last first) and the rest. *)
Definition number (s : text) : option (text * text * text) :=
  let after_point (ip : text) (t : text) :=
    match digitpart t with
    | Some (fp, rest) => Some (ip, fp, rest)
    | None => match ip with [] => None | _ => Some (ip, [], t) end
    end in
  match digitpart s with
  | Some (ip, c :: t) =>
    if eqb_char c "."%char then after_point ip t else Some (ip, [], c :: t)
  | Some (ip, []) => Some (ip, [], [])
  | None =>
    match s with
    | c :: t => if eqb_char c "."%char then after_point [] t else None
    | [] => None
    end
  end.

(** [float(s)] for a text [s]; [None] stands for [ValueError]. *)
Definition py_float (s : text) : option pyfloat :=
  let '(neg, body) := take_sign (strip s) in
  let signed (x : pyfloat) := if neg then SFopp x else x in
  let name := lower body in
  if eqb_text name (str "inf") || eqb_text name (str "infinity")
  then Some (signed (S754_infinity false))
  else if eqb_text name (str "nan") then Some S754_nan
  else
    match number body with
    | Some (ip, fp, rest) =>
      match exponent rest with
      | Some e =>
        Some (signed (of_decimal (digits_value (fp ++ ip))
                                 (e - Z.of_nat (length fp))))
      | None => None
      end
    | None => None
    end.

(** *** Values and exceptions *)

(** A value handed to the normalizers: a cell of [csv.DictReader] is text, or
    [None] when the row is shorter than the header; [parse_amount] also
    takes numbers. *)
Inductive cell := CNone | CStr (s : text) | CNum (x : pyfloat).

(** The exceptions the parser meets, with [str(e)] as argument; [CsvError]
    is [csv.Error], which is none of the other three. *)
Inductive exn :=
| ValueError (msg : text)
| KeyError (msg : text)
| AttributeError (msg : text)
| CsvError (msg : text).

Inductive outcome (A : Type) := Ok (a : A) | Raise (e : exn).
Arguments Ok {A} a.
Arguments Raise {A} e.

#[export] Instance outcome_ret : MRet outcome := fun A a => Ok a.

#[export] Instance outcome_bind : MBind outcome := fun A B k m =>
  match m with
  | Ok a => k a
  | Raise e => Raise e
  end.

(** [bool(v)] *)
Definition truthy (v : cell) : bool :=
  match v with
  | CNone => false
  | CStr [] => false
  | CStr _ => true
  | CNum x => negb (is_zero x)
  end.

Definition no_strip : exn :=
  AttributeError (str "'NoneType' object has no attribute 'strip'").

(** [v.strip()] *)
Definition cell_strip (v : cell) : outcome text :=
  match v with
  | CStr s => Ok (strip s)
  | _ => Raise no_strip
  end.

(** *** [parse_amount] *)

Definition null_words : list text :=
  [str ""; str "null"; str "none"; str "n/a"].

Definition removed_symbols (s : text) : text :=
  remove_char " "%char (remove_char ","%char (remove_char "$"%char s)).

Definition parse_amount (amount_string : cell) : outcome pyfloat :=
  match amount_string with
  | CNum x => Ok x
  | _ =>
    let raw := match amount_string with CStr s => s | _ => str "None" end in
    let amount_str := strip raw in
    if match amount_str with [] => true | _ => false end
       || existsb (eqb_text (lower amount_str)) null_words
    then Ok f0_0
    else
      let is_negative := false in
      let '(is_negative, amount_str) :=
        if startswith amount_str (str "(") && endswith amount_str (str ")")
        then (true, slice_1_m1 amount_str) else (is_negative, amount_str) in
      let amount_str := removed_symbols amount_str in
      let '(is_negative, amount_str) :=
        if startswith amount_str (str "-")
        then (true, tail amount_str) else (is_negative, amount_str) in
      match py_float amount_str with
      | Some amount =>
        Ok (if is_negative then SFopp (SFabs amount) else amount)
      | None => Raise (ValueError (str "Could not parse amount: " ++ raw))
      end
  end.


(** *** Column detection *)

Definition DATE_COLUMNS : list text :=
  [str "date"; str "transaction date"; str "trans date"; str "posted date";
   str "posting date"].

Definition DESCRIPTION_COLUMNS : list text :=
  [str "description"; str "merchant"; str "memo"; str "transaction";
   str "payee"; str "details"; str "description 1"].

Definition AMOUNT_COLUMNS : list text :=
  [str "amount"; str "debit"; str "credit"; str "transaction amount";
   str "value"; str "cad$"; str "usd$"].

(** [headers[headers_lower.index(name)]] when [name in headers_lower], where
    [headers_lower = [h.lower().strip() for h in headers]]. *)
Definition header_named (headers : list text) (name : text) : option text :=
  List.find (fun h => eqb_text (strip (lower h)) name) headers.

Fixpoint find_column (headers : list text) (possible_names : list text)
  : option text :=
  match possible_names with
  | [] => None
  | possible_name :: rest =>
    match header_named headers possible_name with
    | Some h => Some h
    | None => find_column headers rest
    end
  end.

(** [repr(s)] of a text: single quotes unless the text holds a single quote
    and no double quote; backslash, the quote and control characters
    escaped. *)
Definition hex_digit (n : Z) : ascii :=
  if n <? 10 then ascii_of_N (Z.to_N (48 + n)) else ascii_of_N (Z.to_N (87 + n)).

Definition repr_char (quote : ascii) (c : ascii) : text :=
  if eqb_char c "\"%char then [c; c]
  else if eqb_char c quote then ["\"%char; c]
  else if code c =? 9 then str "\t"
  else if code c =? 10 then str "\n"
  else if code c =? 13 then str "\r"
  else if (code c <? 32) || (code c =? 127)
       then ["\"%char; "x"%char; hex_digit (code c / 16); hex_digit (code c mod 16)]
       else [c].

Definition dquote : ascii := ascii_of_nat 34.
Definition squote : ascii := "'"%char.

Definition repr_text (s : text) : text :=
  let quote :=
    if existsb (eqb_char squote) s && negb (existsb (eqb_char dquote) s)
    then dquote else squote in
  [quote] ++ concat (map (repr_char quote) s) ++ [quote].

(** [str(headers)] of a list of texts. *)
Definition repr_list (l : list text) : text :=
  str "[" ++ join (str ", ") (map repr_text l) ++ str "]".

(** The dictionary [detect_columns] returns. *)
Record column_mapping := mk_mapping {
  date : text;
  description : text;
  amount : option text;
  amount_columns : option (list text)
}.

Definition not_found (role : string) (headers : list text) : exn :=
  ValueError (str "Could not find " ++ str role ++
              str " column. Available columns: " ++ repr_list headers).

Definition detect_columns (headers : list text) : outcome column_mapping :=
  match find_column headers DATE_COLUMNS with
  | None => Raise (not_found "date" headers)
  | Some date_col =>
    match find_column headers DESCRIPTION_COLUMNS with
    | None => Raise (not_found "description" headers)
    | Some desc_col =>
      let amount_cols := omap (header_named headers) AMOUNT_COLUMNS in
      match amount_cols with
      | [] => Raise (not_found "amount" headers)
      | [a] =>
        Ok {| date := date_col; description := desc_col;
              amount := Some a; amount_columns := None |}
      | _ =>
        Ok {| date := date_col; description := desc_col;
              amount := None; amount_columns := Some amount_cols |}
      end
    end
  end.

(** *** Rows *)

(** A row of [csv.DictReader]: [dict(zip(fieldnames, row))], the keys of a
    short row completed with [None].  (The surplus cells of a long row are
    stored under the key [None], which no header names.) *)
Definition dict_row (fieldnames : list text) (row : list text)
  : gmap text cell :=
  fold_left (fun d kv => <[kv.1 := kv.2]> d)
            (zip fieldnames (map CStr row ++
                             replicate (length fieldnames - length row) CNone))
            ∅.

(** [row[key]] *)
Definition getitem (row : gmap text cell) (key : text) : outcome cell :=
  match row !! key with
  | Some v => Ok v
  | None => Raise (KeyError (repr_text key))
  end.

(** The loop over [amount_columns]: the first cell that is not blank. *)
Fixpoint first_amount (row : gmap text cell) (cols : list text)
  : outcome (option text) :=
  match cols with
  | [] => Ok None
  | col :: rest =>
    value ← cell_strip (default (CStr []) (row !! col));
    match value with
    | [] => first_amount row rest
    | _ => Ok (Some value)
    end
  end.

Section Dates.

(** The type of [datetime] values and the two library parsers:
    [dateutil.parser.parse(s, fuzzy=False)] and [datetime.strptime(s, fmt)],
    [None] when they raise [ValueError] (or [OverflowError]) on a text. *)
Variable datetime : Type.
Variable dateutil_parse : text -> option datetime.
Variable strptime : text -> text -> option datetime.

Definition DATE_FORMATS : list text :=
  [str "%Y-%m-%d"; str "%m/%d/%Y"; str "%d/%m/%Y"; str "%Y/%m/%d";
   str "%m-%d-%Y"; str "%d-%m-%Y"; str "%b %d, %Y"; str "%B %d, %Y";
   str "%d %b %Y"; str "%d %B %Y"].

Fixpoint try_formats (s : text) (formats : list text) : option datetime :=
  match formats with
  | [] => None
  | fmt :: rest =>
    match strptime (strip s) fmt with
    | Some d => Some d
    | None => try_formats s rest
    end
  end.

(** [detect_date_format]: on a value that is not text, dateutil raises
    [TypeError], which is caught, and [date_string.strip()] then raises
    [AttributeError]. *)
Definition detect_date_format (date_string : cell) : outcome datetime :=
  match date_string with
  | CStr s =>
    match dateutil_parse s with
    | Some d => Ok d
    | None =>
      match try_formats s DATE_FORMATS with
      | Some d => Ok d
      | None => Raise (ValueError (str "Could not parse date: " ++ s))
      end
    end
  | _ => Raise no_strip
  end.

(** The dictionary [_parse_row] returns. *)
Record record := mk_record {
  rec_date : datetime;
  rec_description : text;
  rec_amount : pyfloat
}.

(** The cell [_parse_row] hands to [parse_amount]. *)
Definition amount_cell (row : gmap text cell) (m : column_mapping)
  : outcome cell :=
  match amount_columns m with
  | Some ((_ :: _) as cols) =>
    found ← first_amount row cols;
    mret (CStr (default [] found))
  | _ =>
    match amount m with
    | Some col => getitem row col
    | None => Raise (KeyError (str "None"))
    end
  end.

Definition _parse_row (row : gmap text cell) (m : column_mapping)
  : outcome (option record) :=
  date_str ← getitem row (date m);
  desc ← getitem row (description m);
  amount_str ← amount_cell row m;
  if negb (truthy date_str) && negb (truthy desc) && negb (truthy amount_str)
  then mret None
  else
    d ← detect_date_format date_str;
    s ← cell_strip desc;
    a ← parse_amount amount_str;
    mret (Some {| rec_date := d; rec_description := s; rec_amount := a |}).

(** The dictionary [parse_csv] returns. *)
Record parsed := mk_parsed {
  transactions : list record;
  filename : text;
  row_count : nat;
  errors : list text;
  mapping : column_mapping
}.

(** What [csv.reader] does on the content of the file, text of the 7-bit
    alphabet (bytes of that alphabet always decode): it yields the rows
    [yielded], one at each [next], and then stops or, when [failure] is
    [Some msg], raises [csv.Error(msg)] at the [next] after them (a field
    over the size limit, a new-line character inside an unquoted field). *)
Record reading := mk_reading {
  yielded : list (list text);
  failure : option text
}.

(** The [next] after the last row: [StopIteration], or [csv.Error]. *)
Definition reader_end (file : reading) : outcome unit :=
  match failure file with
  | Some msg => Raise (CsvError msg)
  | None => Ok tt
  end.

(** One turn of the loop of [parse_csv] over the rows of the reader; the
    state is [transactions], [errors], [row_num].  [csv.DictReader] passes
    over the rows without any cell.  [Raise] is an exception the loop does
    not catch. *)
Definition loop_state : Type := list record * list text * nat.

Definition parse_step (fieldnames : list text) (m : column_mapping)
  (st : loop_state) (row : list text) : outcome loop_state :=
  let '(txns, errs, row_num) := st in
  match row with
  | [] => Ok st
  | _ =>
    let row_num := S row_num in
    match _parse_row (dict_row fieldnames row) m with
    | Ok (Some t) => Ok (txns ++ [t], errs, row_num)
    | Ok None => Ok (txns, errs, row_num)
    | Raise (ValueError msg) | Raise (KeyError msg) =>
      Ok (txns, errs ++ [str "Row " ++ decimal row_num ++ str ": " ++ msg],
          row_num)
    | Raise e => Raise e
    end
  end.

Fixpoint parse_rows (fieldnames : list text) (m : column_mapping)
  (st : loop_state) (rows : list (list text)) : outcome loop_state :=
  match rows with
  | [] => Ok st
  | row :: rest =>
    st' ← parse_step fieldnames m st row;
    parse_rows fieldnames m st' rest
  end.

(** [filename or 'unknown.csv']: [None] and the empty name give the
    default. *)
Definition filename_or_unknown (name : option text) : text :=
  match name with
  | Some ((_ :: _) as n) => n
  | _ => str "unknown.csv"
  end.

(** [parse_csv] on what the reader does on the file content.
    [reader.fieldnames] takes the first row, if there is one; the loop takes
    the rows after it, and ends at the [next] after the last of them.  The
    [csv.Error] of the reader is raised outside the [try] of the loop and
    leaves the function, as does an [AttributeError] of a row. *)
Definition parse_csv (file : reading) (name : option text) : outcome parsed :=
  match yielded file with
  | [] =>
    _ ← reader_end file;
    Raise (ValueError (str "CSV file is empty or has no headers"))
  | [] :: _ => Raise (ValueError (str "CSV file is empty or has no headers"))
  | fieldnames :: rows =>
    m ← detect_columns fieldnames;
    st ← parse_rows fieldnames m ([], [], 1%nat) rows;
    _ ← reader_end file;
    let '(txns, errs, _) := st in
    mret {| transactions := txns;
            filename := filename_or_unknown name;
            row_count := length txns;
            errors := errs;
            mapping := m |}
  end.

End Dates.

Arguments mk_record {datetime} _ _ _.
Arguments rec_date {datetime} _.
Arguments rec_description {datetime} _.
Arguments rec_amount {datetime} _.
Arguments mk_parsed {datetime} _ _ _ _ _.
Arguments transactions {datetime} _.
Arguments filename {datetime} _.
Arguments row_count {datetime} _.
Arguments errors {datetime} _.
Arguments mapping {datetime} _.

End CsvParser.

Export Categorization.
Export CsvParser.

(** ** Specification vocabulary *)

Module Spec.

(** Document [i] of the collection is the one a scan selects: it satisfies
    [q], no document satisfying [q] has a larger [key], and among those of
    equal [key] it is the first in natural order. *)
Definition first_max (q : rule -> bool) (key : rule -> Z) (db : list rule)
  (i : nat) (r : rule) : Prop :=
  db !! i = Some r /\ q r = true /\
  forall j r', db !! j = Some r' -> q r' = true ->
    key r' < key r \/ (key r' = key r /\ (i <= j)%nat).

(** No document of the collection satisfies [q]. *)
Definition no_match (q : rule -> bool) (db : list rule) : Prop :=
  forall j r', db !! j = Some r' -> q r' = false.

(** The same selection, stated on the list a cursor yields: [x] occurs in
    [l], everything before it has a smaller key, nothing after it a larger
    one. *)
Definition picks (P : nat * rule -> bool) (key : nat * rule -> Z)
  (l : list (nat * rule)) (x : nat * rule) : Prop :=
  exists l1 l2, l = l1 ++ x :: l2 /\ P x = true /\
    (forall y, In y l1 -> P y = true -> key y < key x) /\
    (forall y, In y l2 -> P y = true -> key y <= key x).

(** The query of the exact tier, of the contains tier, and the score of the
    fuzzy tier, for a normalized description. *)
Definition exact_query (dc : text) : rule -> bool := has_pattern dc exact.

Definition contains_query (dc : text) (r : rule) : bool :=
  is_type contains_ r && Py.contains dc (upper (pattern r)).

(** The sort key of the contains tier. *)
Definition uc (x : nat * rule) : Z := use_count (snd x).

(** The score of the fuzzy tier, for the scorer [ratio]. *)
Definition fuzzy_score (ratio : text -> text -> Z) (dc : text) (r : rule) : Z :=
  ratio (upper (pattern r)) dc.

(** The scan order of the exact tier: natural order alone. *)
Definition natural (r : rule) : Z := 0.

Definition hit (c : Z) (conf : pyfloat) (m : match_type) : result :=
  {| res_category_id := c; confidence := conf; res_match_type := m |}.

Definition normalize (description : text) : text := upper (strip description).

(** The merchant pattern [learn_from_categorization] and
    [batch_categorize_similar] derive from a description. *)
Definition merchant_pattern (description : text) : text :=
  _extract_merchant_pattern (normalize description).

(** The calls that reach the rule collection, and a run of them. *)
Inductive call :=
| Categorize (now : Z) (description : text)
| Learn (now : Z) (description : text) (c : Z).

Definition run_call (ratio : text -> text -> Z) (db : list rule) (o : call)
  : list rule :=
  match o with
  | Categorize now d => snd (categorize ratio now d db)
  | Learn now d c => snd (learn_from_categorization now d c db)
  end.

Definition run (ratio : text -> text -> Z) (calls : list call) (db : list rule)
  : list rule :=
  fold_left (run_call ratio) calls db.

(** The collection holds a contains rule with pattern [p]. *)
Definition has_contains_rule (p : text) (db : list rule) : Prop :=
  exists i r, db !! i = Some r /\ rule_match_type r = contains_ /\ pattern r = p.

(** At most one contains rule per pattern text. *)
Definition one_rule_per_pattern (db : list rule) : Prop :=
  forall i j r r', db !! i = Some r -> db !! j = Some r' ->
    rule_match_type r = contains_ -> rule_match_type r' = contains_ ->
    pattern r = pattern r' -> i = j.

#[export] Instance pyfloat_eq_dec : EqDecision pyfloat.
Proof. solve_decision. Defined.

#[export] Instance transaction_eq_dec : EqDecision transaction.
Proof. solve_decision. Defined.

(** The number of documents that differ between a collection and its
    state after an update. *)
Definition changed (db db' : list transaction) : nat :=
  length (filter (fun p => p.1 <> p.2) (zip db db')).

(** *** Amount cells *)

(** The cell is blank or a null word, letter case apart. *)
Definition blank_or_null (s : text) : bool :=
  match strip s with
  | [] => true
  | t => existsb (eqb_text (lower t)) null_words
  end.

(** The accounting form of a negative amount, on the trimmed cell. *)
Definition parenthesized (t : text) : bool :=
  startswith t (str "(") && endswith t (str ")").

(** The trimmed cell without its parentheses, currency signs, thousands
    separators and spaces. *)
Definition unwrapped (t : text) : text :=
  removed_symbols (if parenthesized t then slice_1_m1 t else t).

(** The text handed to [float()]. *)
Definition magnitude_text (t : text) : text :=
  if startswith (unwrapped t) (str "-") then tail (unwrapped t) else unwrapped t.

(** The flag [is_negative] of [parse_amount]. *)
Definition negative_form (t : text) : bool :=
  parenthesized t || startswith (unwrapped t) (str "-").

(** *** Dates of the examples

    The closed examples below need the two library parsers at a few
    texts.  [iso_date] reads YYYY-MM-DD, which dateutil reads as that day
    and [strptime] reads under the format [%Y-%m-%d]; the other date text of
    the examples, "not a date", is rejected by both libraries under every
    format. *)
Definition digit_of (c : ascii) : Z := code c - 48.

Definition iso_date (s : text) : option (Z * Z * Z) :=
  match s with
  | [y1; y2; y3; y4; s1; m1; m2; s2; d1; d2] =>
    let y := 1000 * digit_of y1 + 100 * digit_of y2 + 10 * digit_of y3
             + digit_of y4 in
    let m := 10 * digit_of m1 + digit_of m2 in
    let d := 10 * digit_of d1 + digit_of d2 in
    if forallb is_digit [y1; y2; y3; y4; m1; m2; d1; d2]
       && eqb_char s1 "-"%char && eqb_char s2 "-"%char
       && (1 <=? m) && (m <=? 12) && (1 <=? d) && (d <=? 31)
    then Some (y, m, d) else None
  | _ => None
  end.

Definition example_dateutil (s : text) : option (Z * Z * Z) := iso_date (strip s).

Definition example_strptime (s fmt : text) : option (Z * Z * Z) :=
  if eqb_text fmt (str "%Y-%m-%d") then iso_date s else None.

(** *** Rows of a file *)


Definition is_empty (s : text) : bool := match s with [] => true | _ => false end.

(** The rows [csv.DictReader] yields: those with at least one cell. *)
Definition data_rows (rows : list (list text)) : list (list text) :=
  List.filter (fun row => match row with [] => false | _ => true end) rows.

(** The row has a cell under every header. *)
Definition complete (fieldnames : list text) (row : list text) : Prop :=
  (length fieldnames <= length row)%nat.

Section RowOutcomes.

Variable datetime : Type.
Variable dateutil_parse : text -> option datetime.
Variable strptime : text -> text -> option datetime.

(** The record a row contributes, if any. *)
Definition row_record (fieldnames : list text) (m : column_mapping)
  (row : list text) : option (record datetime) :=
  match _parse_row datetime dateutil_parse strptime (dict_row fieldnames row) m with
  | Ok (Some t) => Some t
  | _ => None
  end.

(** The entry of the error list a row contributes, if any, for the row
    number [n]. *)
Definition row_error (fieldnames : list text) (m : column_mapping)
  (numbered : nat * list text) : option text :=
  match _parse_row datetime dateutil_parse strptime
          (dict_row fieldnames numbered.2) m with
  | Raise (ValueError msg) | Raise (KeyError msg) =>
    Some (str "Row " ++ decimal numbered.1 ++ str ": " ++ msg)
  | _ => None
  end.

End RowOutcomes.

End Spec.

Export Spec.

(** ** Words *)

Module Words.

(** A word of [str.split]: not empty, and free of space characters. *)
Definition word (w : text) : Prop :=
  w <> [] /\ Forall (fun c => is_space c = false) w.

End Words.

Export Words.

(** ** Vocabulary for the column mapper *)

Module Columns.

(** The name a header is compared under. *)
Definition header_key (h : text) : text := strip (lower h).

(** Some header plays the role the synonym list [names] stands for. *)
Definition role_present (headers names : list text) : Prop :=
  exists h, h ∈ headers /\ header_key h ∈ names.

(** What [row.get(col, '')] reads. *)
Definition cell_or_empty (row : gmap text cell) (col : text) : cell :=
  default (CStr []) (row !! col).

(** The cell holds text that is blank once trimmed. *)
Definition blank_cell (v : cell) : Prop :=
  exists s, v = CStr s /\ strip s = [].

End Columns.

Export Columns.

(** ** [validate_csv] ([utils/csv_parser.py]) *)

Module CsvValidation.

(** The dictionary [validate_csv] returns: [valid], [headers], and [error]
    or [column_mapping]. *)
Inductive validation :=
| Invalid (headers : list text) (error : text)
| Valid (headers : list text) (m : column_mapping).

(** [validate_csv] on what the reader does on the file content; it reads
    the first row only.  The inner handler catches the [ValueError] of
    [detect_columns] and keeps the headers; the outer one catches
    [ValueError] and [KeyError]; any other exception leaves the function,
    the [csv.Error] that [reader.fieldnames] raises among them. *)
Definition validate_csv (file : reading) : outcome validation :=
  match yielded file with
  | [] =>
    match reader_end file with
    | Ok _ => Ok (Invalid [] (str "CSV file is empty or has no headers"))
    | Raise (ValueError msg) | Raise (KeyError msg) => Ok (Invalid [] msg)
    | Raise e => Raise e
    end
  | [] :: _ => Ok (Invalid [] (str "CSV file is empty or has no headers"))
  | headers :: _ =>
    match detect_columns headers with
    | Ok m => Ok (Valid headers m)
    | Raise (ValueError msg) => Ok (Invalid headers msg)
    | Raise (KeyError msg) => Ok (Invalid [] msg)
    | Raise e => Raise e
    end
  end.

End CsvValidation.

Export CsvValidation.

(** ** [get_categorization_stats] ([utils/categorization.py]) *)

Module Stats.

(** [collection.count_documents(query)] *)
Definition count_documents {A} (query : A -> bool) (db : list A) : nat :=
  length (find query db).

(** An entry of [most_used_rules]: pattern, category, use count. *)
Definition summary (d : nat * rule) : text * Z * Z :=
  (pattern (snd d), category_id (snd d), use_count (snd d)).

(** The cursor [find().sort('use_count', -1).limit(10)]. *)
Definition most_used (db : list rule) : list (nat * rule) :=
  take 10 (sort_use_count_desc (find (fun _ => true) db)).

(** The dictionary [get_categorization_stats] returns. *)
Record stats := mk_stats {
  total_rules : nat;
  rules_by_type : list (match_type * nat);
  most_used_rules : list (text * Z * Z)
}.

Definition get_categorization_stats (db : list rule) : stats :=
  {| total_rules := count_documents (fun _ => true) db;
     rules_by_type :=
       map (fun m => (m, count_documents (is_type m) db))
           [exact; contains_; fuzzy; regex];
     most_used_rules := map summary (most_used db) |}.

End Stats.

Export Stats.

(** ** [allowed_file] ([api/upload.py]) *)

Module Upload.

Definition dot : ascii := "."%char.

(** The text before the first dot. *)
Fixpoint before_dot (s : text) : text :=
  match s with
  | [] => []
  | c :: t => if eqb_char c dot then [] else c :: before_dot t
  end.

(** [filename.rsplit('.', 1)[1]] for a filename that holds a dot: the text
    after the last dot. *)
Definition after_last_dot (filename : text) : text :=
  rev (before_dot (rev filename)).

Definition allowed_extensions : list text := [str "csv"; str "txt"].

Definition allowed_file (filename : text) : bool :=
  existsb (eqb_char dot) filename &&
  existsb (eqb_text (lower (after_last_dot filename))) allowed_extensions.

End Upload.

Export Upload.

(** ** The transaction model and the import loop *)

(** [Transaction.create] and [Transaction.validate] of
    [models/transaction.py], and [_process_transactions] of [api/upload.py],
    which classifies each parsed record, builds its document and inserts it.

    A document is a record of the nine fields [create] writes, with the
    Python type each of them has after [create]: a [datetime], texts, floats,
    an [int], a [bool], and [None] or a text for [source_file].  The keyword
    arguments of [create] are a record of options, [None] for a keyword that
    is not passed.  [datetime.utcnow()] is the argument [now].  The record
    [transaction] of the engine keeps the fields the engine reads or writes;
    [document] is the whole document, as [create] builds it. *)

Module Transactions.
Import Py PyFloat Categorization CsvParser.

Definition fle (x y : pyfloat) : bool := SFleb x y.

(** [0.0 <= x <= 1.0]. *)
Definition in_unit_range (x : pyfloat) : bool := fle f0_0 x && fle x f1_0.

(** [str(n)] for an [int]. *)
Definition str_int (n : Z) : text :=
  if n <? 0 then "-"%char :: decimal (Z.to_nat (- n)) else decimal (Z.to_nat n).

Definition is_none (m : match_type) : bool :=
  match m with none => true | _ => false end.

Section Model.

(** [datetime.strptime(s, fmt)], [None] when it raises [ValueError], and
    [str(x)] for a float, which the message of a rejected confidence shows. *)
Variable datetime : Type.
Variable strptime : text -> text -> option datetime.
Variable str_float : pyfloat -> text.

(** The [date] argument: a [datetime] or a text. *)
Inductive date_arg := DateValue (d : datetime) | DateText (s : text).

Record optional := mk_optional {
  opt_category_id : option Z;
  opt_source_file : option text;
  opt_notes : option text;
  opt_auto_categorized : option bool;
  opt_confidence : option pyfloat
}.

Record document := mk_document {
  doc_date : datetime;
  doc_description : text;
  doc_amount : pyfloat;
  doc_category_id : Z;
  doc_source_file : option text;
  doc_upload_date : Z;
  doc_notes : text;
  doc_auto_categorized : bool;
  doc_confidence : pyfloat
}.

(** The [for fmt in ...: try ... break ... else] of [create]: the first
    format [strptime] accepts, on the text as it is. *)
Fixpoint first_format (s : text) (formats : list text) : option datetime :=
  match formats with
  | [] => None
  | fmt :: rest =>
    match strptime s fmt with
    | Some d => Some d
    | None => first_format s rest
    end
  end.

Definition create (now : Z) (date : date_arg) (description : text)
  (amount : cell) (o : optional) : outcome document :=
  let category_id := default 0 (opt_category_id o) in
  let source_file := opt_source_file o in
  let notes := default [] (opt_notes o) in
  let auto_categorized := default false (opt_auto_categorized o) in
  let confidence := default f0_0 (opt_confidence o) in
  date ←
    match date with
    | DateValue d => Ok d
    | DateText s =>
      match first_format s [str "%Y-%m-%d"; str "%m/%d/%Y"; str "%d/%m/%Y"] with
      | Some d => Ok d
      | None => Raise (ValueError (str "Could not parse date: " ++ s))
      end
    end;
  amount ←
    match amount with
    | CNum x => Ok x
    | CStr s =>
      match py_float s with
      | Some x => Ok x
      | None => Raise (ValueError (str "Invalid amount: " ++ s))
      end
    | CNone => Raise (ValueError (str "Invalid amount: None"))
    end;
  if category_id <? 0 then
    Raise (ValueError (str "category_id must be a non-negative integer, got "
                       ++ str_int category_id))
  else if negb (in_unit_range confidence) then
    Raise (ValueError (str "Confidence must be between 0.0 and 1.0, got "
                       ++ str_float confidence))
  else
    Ok {| doc_date := date;
          doc_description := strip description;
          doc_amount := amount;
          doc_category_id := category_id;
          doc_source_file := source_file;
          doc_upload_date := now;
          doc_notes := strip notes;
          doc_auto_categorized := auto_categorized;
          doc_confidence := confidence |}.

(** [validate] on a document of this type: the four required fields are
    there, the date is a [datetime] and the amount a number, so the checks
    left are those of the category and of the confidence. *)
Definition validate (t : document) : outcome bool :=
  if doc_category_id t <? 0 then
    Raise (ValueError (str "category_id must be a non-negative integer"))
  else if negb (in_unit_range (doc_confidence t)) then
    Raise (ValueError (str "confidence must be between 0.0 and 1.0"))
  else Ok true.

(** *** [_process_transactions] *)

(** The two collections the loop writes: the rules (through [categorize])
    and the transactions (through [insert_one]). *)
Definition collections : Type := list rule * list document.

Section Loop.

Variable fuzz_ratio : text -> text -> Z.

(** The clock, as read while the record of a given position is processed:
    by [_update_rule_usage] and by [create]. *)
Variable used_at : nat -> Z.
Variable created_at : nat -> Z.

(** One turn of the loop, up to [insert_one]: the collections it leaves and
    whether the record was categorized, or the exception of [create], which
    leaves the loop after [categorize] has run. *)
Definition process_one (k : nat) (filename : text) (txn_data : record datetime)
  (db : collections) : collections * outcome bool :=
  let '(categorization, rules) :=
    categorize fuzz_ratio (used_at k) (rec_description txn_data) (fst db) in
  let categorized := negb (is_none (res_match_type categorization)) in
  match create (created_at k) (DateValue (rec_date txn_data))
          (rec_description txn_data) (CNum (rec_amount txn_data))
          {| opt_category_id := Some (res_category_id categorization);
             opt_source_file := Some filename;
             opt_notes := None;
             opt_auto_categorized := Some categorized;
             opt_confidence := Some (confidence categorization) |} with
  | Ok transaction => ((rules, snd db ++ [transaction]), Ok categorized)
  | Raise e => ((rules, snd db), Raise e)
  end.

(** The loop from the record of position [k] on; the state is the
    collections and the two counters. *)
Fixpoint process_loop (k : nat) (filename : text) (l : list (record datetime))
  (db : collections) (categorized_count uncategorized_count : nat)
  : collections * outcome (nat * nat) :=
  match l with
  | [] => (db, Ok (categorized_count, uncategorized_count))
  | txn_data :: rest =>
    match process_one k filename txn_data db with
    | (db', Ok true) =>
      process_loop (S k) filename rest db' (S categorized_count)
        uncategorized_count
    | (db', Ok false) =>
      process_loop (S k) filename rest db' categorized_count
        (S uncategorized_count)
    | (db', Raise e) => (db', Raise e)
    end
  end.

(** [_process_transactions]: the collections it leaves, and the triple it
    returns or the exception that ends it. *)
Definition _process_transactions (parse_result : parsed datetime)
  (filename : text) (db : collections)
  : collections * outcome (nat * nat * nat) :=
  match process_loop 0 filename (transactions parse_result) db 0 0 with
  | (db', Ok (categorized_count, uncategorized_count)) =>
    (db', Ok (row_count parse_result, categorized_count, uncategorized_count))
  | (db', Raise e) => (db', Raise e)
  end.

End Loop.

(** *** Vocabulary of the statements on the import *)

(** The document [t] holds the data of the parsed record [r] and the name of
    the file. *)
Definition saved_from (filename : text) (r : record datetime) (t : document)
  : Prop :=
  doc_date t = rec_date r /\
  doc_description t = strip (rec_description r) /\
  doc_amount t = rec_amount r /\
  doc_source_file t = Some filename /\
  doc_notes t = [].

(** The category and the confidence of [t] are in range, and a document that
    was not categorized is in category 0 with confidence 0.0. *)
Definition well_formed (t : document) : Prop :=
  0 <= doc_category_id t /\
  in_unit_range (doc_confidence t) = true /\
  (doc_auto_categorized t = false ->
   doc_category_id t = 0 /\ doc_confidence t = f0_0).

Definition count_auto (docs : list document) : nat :=
  length (List.filter doc_auto_categorized docs).

End Model.

(** The sum of the use counts of a rule collection. *)
Definition total_use (db : list rule) : Z :=
  foldr (fun r n => use_count r + n) 0 db.

(** The scorer stays on its scale; no rule has a negative category. *)
Definition scores_bounded (ratio : text -> text -> Z) : Prop :=
  forall a b, ratio a b <= 100.

Definition categories_valid (db : list rule) : Prop :=
  Forall (fun r => 0 <= category_id r) db.

Arguments DateValue {datetime} d.
Arguments DateText {datetime} s.
Arguments mk_document {datetime} _ _ _ _ _ _ _ _ _.
Arguments doc_date {datetime} _.
Arguments doc_description {datetime} _.
Arguments doc_amount {datetime} _.
Arguments doc_category_id {datetime} _.
Arguments doc_source_file {datetime} _.
Arguments doc_upload_date {datetime} _.
Arguments doc_notes {datetime} _.
Arguments doc_auto_categorized {datetime} _.
Arguments doc_confidence {datetime} _.
Arguments validate {datetime} t.
Arguments well_formed {datetime} t.
Arguments count_auto {datetime} docs.

End Transactions.

(** * Properties *)

(** ** Text *)

Module PyFacts.

Lemma eqb_char_eq (a b : ascii) : eqb_char a b = true <-> a = b.
Proof. unfold eqb_char. apply Ascii.eqb_eq. Qed.

Lemma eqb_char_refl (a : ascii) : eqb_char a a = true.
Proof. by apply eqb_char_eq. Qed.

Lemma eqb_text_eq (a b : text) : eqb_text a b = true <-> a = b.
Proof.
  revert b. induction a as [|x a IH]; intros [|y b]; simpl; try easy.
  rewrite andb_true_iff, eqb_char_eq, IH. split.
  - by intros [-> ->].
  - intros [= -> ->]. done.
Qed.

Lemma eqb_text_refl (a : text) : eqb_text a a = true.
Proof. by apply eqb_text_eq. Qed.

(** [startswith] and [contains] are the prefix and substring relations. *)
Lemma startswith_spec (s p : text) :
  startswith s p = true <-> exists suf, s = p ++ suf.
Proof.
  revert s. induction p as [|x p IH]; intros s; simpl.
  - split; [eauto | by destruct s].
  - destruct s as [|y s]; simpl.
    + split; [easy | by intros [suf ?]].
    + rewrite andb_true_iff, eqb_char_eq, IH. split.
      * intros [-> [suf ->]]. eauto.
      * intros [suf [= -> ->]]. eauto.
Qed.

Lemma contains_spec (s p : text) :
  Py.contains s p = true <-> exists pre suf, s = pre ++ p ++ suf.
Proof.
  induction s as [|c s IH]; cbn [Py.contains].
  - rewrite orb_false_r, startswith_spec. split.
    + intros [suf ->]. by exists [], suf.
    + intros (pre & suf & H). destruct pre; [eauto|easy].
  - rewrite orb_true_iff, startswith_spec, IH. split.
    + intros [[suf ->] | (pre & suf & ->)].
      * by exists [], suf.
      * by exists (c :: pre), suf.
    + intros (pre & suf & H). destruct pre as [|c' pre]; simpl in H.
      * left. eauto.
      * right. injection H as -> ->. eauto.
Qed.

Lemma contains_nil (s : text) : Py.contains s [] = true.
Proof. apply contains_spec. by exists [], s. Qed.

Lemma contains_refl (s : text) : Py.contains s s = true.
Proof. apply contains_spec. exists [], []. by rewrite app_nil_r. Qed.

Lemma upper_char_idemp (c : ascii) : upper_char (upper_char c) = upper_char c.
Proof. destruct c as [[] [] [] [] [] [] [] []]; reflexivity. Qed.

Lemma upper_idemp (s : text) : upper (upper s) = upper s.
Proof.
  unfold upper. rewrite map_map. apply map_ext. intros. apply upper_char_idemp.
Qed.

End PyFacts.

(** ** The categorization engine *)

Module CategorizationFacts.
Import PyFacts.

(** *** Collections *)

Lemma enumerate_In {A} (db : list A) (k i : nat) (d : A) :
  In (i, d) (enumerate k db) <-> (k <= i)%nat /\ db !! (i - k)%nat = Some d.
Proof.
  revert k. induction db as [|x db IH]; intros k; simpl.
  - split; [easy | by intros [_ ?]].
  - rewrite IH. split.
    + intros [[= <- <-] | [Hk Hl]].
      * split; [lia|]. by replace (k - k)%nat with O by lia.
      * split; [lia|]. by replace (i - k)%nat with (S (i - S k)) by lia.
    + intros [Hk Hl]. destruct (decide (i = k)) as [->|Hne].
      * left. replace (k - k)%nat with O in Hl by lia. simpl in Hl. congruence.
      * right. split; [lia|].
        by replace (i - k)%nat with (S (i - S k)) in Hl by lia.
Qed.

Lemma find_In {A} (q : A -> bool) (db : list A) (i : nat) (d : A) :
  In (i, d) (find q db) <-> db !! i = Some d /\ q d = true.
Proof.
  unfold find. rewrite filter_In, enumerate_In. simpl.
  replace (i - 0)%nat with i by lia. intuition lia.
Qed.

(** The documents a query returns come in the order of their [_id]. *)
Lemma find_split {A} (q : A -> bool) (db : list A) (k : nat) l1 i d l2 :
  List.filter (fun x => q (snd x)) (enumerate k db) = l1 ++ (i, d) :: l2 ->
  (forall x, In x l1 -> (fst x < i)%nat) /\ (forall x, In x l2 -> (i < fst x)%nat).
Proof.
  revert k l1. induction db as [|x db IH]; intros k l1; simpl.
  - by destruct l1.
  - assert (Hge : forall y, In y (List.filter (fun x => q (snd x)) (enumerate (S k) db))
                     -> (k < fst y)%nat).
    { intros [j y] [Hy _]%filter_In. apply enumerate_In in Hy. simpl. lia. }
    destruct (q x); [|by apply IH].
    destruct l1 as [|z l1]; simpl.
    + intros [= <- <- <-]. split; [easy|]. apply Hge.
    + intros [= <- H]. destruct (IH _ _ H) as [H1 H2]. split; [|done].
      intros y [<- | Hy]; [|by apply H1]. simpl.
      apply (Hge (i, d)). rewrite H. apply in_elt.
Qed.


Lemma insert_desc_In d l x : In x (insert_desc d l) <-> x = d \/ In x l.
Proof.
  induction l as [|h t IH]; simpl.
  - intuition.
  - destruct (_ <=? _); simpl; [intuition|]. rewrite IH. intuition.
Qed.

Lemma insert_desc_sorted d l :
  StronglySorted (fun a b => uc b <= uc a) l ->
  StronglySorted (fun a b => uc b <= uc a) (insert_desc d l).
Proof.
  induction 1 as [|h t Hs IH Hh]; simpl.
  - repeat constructor.
  - destruct (Z.leb_spec (use_count (snd h)) (use_count (snd d))) as [Hle|Hgt].
    + constructor; [by constructor|].
      constructor; [done|]. unfold uc in *.
      eapply Forall_impl; [exact Hh|]. simpl. intros; lia.
    + constructor; [done|]. apply List.Forall_forall. intros x Hx.
      apply insert_desc_In in Hx as [->|Hx]; unfold uc in *; [lia|].
      rewrite List.Forall_forall in Hh. by apply Hh.
Qed.

Lemma sort_sorted l :
  StronglySorted (fun a b => uc b <= uc a) (sort_use_count_desc l).
Proof.
  induction l; simpl; [constructor | by apply insert_desc_sorted].
Qed.

Lemma sort_In l x : In x (sort_use_count_desc l) <-> In x l.
Proof.
  induction l as [|a l IH]; simpl; [done|].
  rewrite insert_desc_In, IH. intuition.
Qed.

(** Scanning a sorted cursor after one more document was merged in. *)
Lemma find_insert_desc P d s :
  StronglySorted (fun a b => uc b <= uc a) s ->
  List.find P (insert_desc d s) =
  if P d && match List.find P s with Some y => uc y <=? uc d | None => true end
  then Some d else List.find P s.
Proof.
  induction 1 as [|h t Hs IH Hh]; simpl.
  - by destruct (P d).
  - destruct (Z.leb_spec (use_count (snd h)) (use_count (snd d))) as [Hle|Hgt];
      simpl.
    + destruct (P d); simpl; [|done].
      destruct (P h) eqn:Hh'.
      * unfold uc. by rewrite (proj2 (Z.leb_le _ _) Hle).
      * destruct (List.find P t) as [y|] eqn:Hy; [|done].
        apply find_some in Hy as [Hy _]. rewrite List.Forall_forall in Hh.
        specialize (Hh _ Hy). unfold uc in *.
        by rewrite (proj2 (Z.leb_le _ _)) by lia.
    + destruct (P h) eqn:Hh'.
      * unfold uc. rewrite (proj2 (Z.leb_gt _ _)) by lia.
        by rewrite andb_false_r.
      * apply IH.
Qed.

Lemma find_sorted P l :
  match List.find P (sort_use_count_desc l) with
  | Some x => picks P uc l x
  | None => forall y, In y l -> P y = false
  end.
Proof.
  induction l as [|a l IH]; simpl; [easy|].
  rewrite find_insert_desc by apply sort_sorted.
  destruct (List.find P (sort_use_count_desc l)) as [y|] eqn:Hy.
  - destruct IH as (l1 & l2 & -> & Py & H1 & H2).
    destruct (P a) eqn:Pa; simpl.
    + destruct (Z.leb_spec (uc y) (uc a)) as [Hle|Hgt].
      * exists [], (l1 ++ y :: l2). repeat split; [done|easy|].
        intros z [Hz|[<-|Hz]]%in_app_or Pz; [|done|].
        -- specialize (H1 _ Hz Pz). lia.
        -- specialize (H2 _ Hz Pz). lia.
      * exists (a :: l1), l2. repeat split; [done| |done].
        intros z [<-|Hz] Pz; [lia|by apply H1].
    + exists (a :: l1), l2. repeat split; [done| |done].
      intros z [<-|Hz] Pz; [congruence|by apply H1].
  - destruct (P a) eqn:Pa; simpl.
    + exists [], l. repeat split; [done|easy|].
      intros z Hz Pz. rewrite (IH _ Hz) in Pz. done.
    + intros z [<-|Hz]; [done|by apply IH].
Qed.



(** *** Selections *)

Lemma first_max_unique q key db i r j r' :
  first_max q key db i r -> first_max q key db j r' -> i = j /\ r = r'.
Proof.
  intros (Hi & Qi & Mi) (Hj & Qj & Mj).
  specialize (Mi _ _ Hj Qj). specialize (Mj _ _ Hi Qi).
  assert (i = j) as -> by lia. split; congruence.
Qed.

Lemma first_max_ext q q' key db i r :
  (forall x, q x = q' x) -> first_max q key db i r -> first_max q' key db i r.
Proof.
  intros E (Hi & Qi & Mi). split; [done|]. split; [by rewrite <- E|].
  intros j r' Hj Qj. apply Mi; [done|by rewrite E].
Qed.

Lemma picks_first_max q P key db i r :
  picks (fun x => P (snd x)) (fun x => key (snd x)) (find q db) (i, r) ->
  first_max (fun x => q x && P x) key db i r.
Proof.
  intros (l1 & l2 & Hl & Px & H1 & H2). simpl in *.
  assert (Hin : In (i, r) (find q db)) by (rewrite Hl; apply in_elt).
  apply find_In in Hin as [Hi Qi].
  split; [done|]. split; [by rewrite Qi|].
  intros j r' Hj [Qj Pj]%andb_true_iff.
  assert (Hin : In (j, r') (find q db)) by (by apply find_In).
  destruct (find_split q db O l1 i r l2 Hl) as [Hlt Hgt].
  rewrite Hl in Hin. apply in_app_or in Hin as [Hin|[[= <- <-]|Hin]].
  - left. by apply (H1 _ Hin).
  - right. done.
  - specialize (H2 _ Hin Pj). specialize (Hgt _ Hin). simpl in *. lia.
Qed.

Lemma find_one_Some q db i r :
  find_one q db = Some (i, r) -> first_max q natural db i r.
Proof.
  unfold find_one. destruct (find q db) as [|x l] eqn:Hl; [done|].
  intros [= ->].
  assert (picks (fun _ => true) (fun x => natural (snd x)) (find q db) (i, r))
    as Hp.
  { exists [], l. rewrite Hl. unfold natural. repeat split; auto; easy. }
  apply (picks_first_max q (fun _ => true) natural) in Hp.
  eapply first_max_ext; [|exact Hp].
  intros. apply andb_true_r.
Qed.

Lemma find_one_None q db : find_one q db = None -> no_match q db.
Proof.
  unfold find_one. destruct (find q db) as [|x l] eqn:Hl; [|done].
  intros _ j r' Hj. destruct (q r') eqn:Q; [|done].
  assert (In (j, r') (find q db)) as Hin by (by apply find_In).
  by rewrite Hl in Hin.
Qed.

Lemma no_match_first_max q key db i r :
  no_match q db -> first_max q key db i r -> False.
Proof. intros N (Hi & Qi & _). rewrite (N _ _ Hi) in Qi. done. Qed.

(** Recording the use of the selected rule leaves it selected. *)
Lemma first_max_touch now q key db i r :
  (forall x, q (touch now x) = q x) ->
  (forall x, key x <= key (touch now x)) ->
  first_max q key db i r ->
  first_max q key (_update_rule_usage now i db) i (touch now r).
Proof.
  intros Eq Ek (Hi & Qi & Mi). unfold _update_rule_usage.
  split; [by rewrite list_lookup_alter_eq, Hi|]. split; [by rewrite Eq|].
  intros j r' Hj Qj. destruct (decide (i = j)) as [<-|Hne].
  - rewrite list_lookup_alter_eq, Hi in Hj. injection Hj as <-. right. done.
  - rewrite list_lookup_alter_ne in Hj by done.
    specialize (Mi _ _ Hj Qj). specialize (Ek r). lia.
Qed.

Lemma no_match_touch now q db i :
  (forall x, q (touch now x) = q x) ->
  no_match q db -> no_match q (_update_rule_usage now i db).
Proof.
  intros Eq N j r' Hj. unfold _update_rule_usage in Hj.
  destruct (decide (i = j)) as [<-|Hne].
  - rewrite list_lookup_alter_eq in Hj.
    destruct (db !! i) as [r|] eqn:Hi; [|done]. injection Hj as <-.
    rewrite Eq. by apply (N i).
  - rewrite list_lookup_alter_ne in Hj by done. by apply (N j).
Qed.


(** *** The tiers *)

Section Tiers.

Variable fuzz_ratio : text -> text -> Z.

Local Abbreviation score := (fuzzy_score fuzz_ratio).

Lemma exact_match_hit now dc db i r :
  first_max (exact_query dc) natural db i r ->
  _exact_match now dc db =
  (Some (hit (category_id r) f1_0 exact), _update_rule_usage now i db).
Proof.
  intros H. unfold _exact_match.
  destruct (find_one _ db) as [[j r']|] eqn:F.
  - apply find_one_Some in F.
    by destruct (first_max_unique _ _ _ _ _ _ _ H F) as [<- <-].
  - apply find_one_None in F. by destruct (no_match_first_max _ _ _ _ _ F H).
Qed.

Lemma exact_match_miss now dc db :
  no_match (exact_query dc) db -> _exact_match now dc db = (None, db).
Proof.
  intros N. unfold _exact_match.
  destruct (find_one _ db) as [[j r']|] eqn:F; [|done].
  apply find_one_Some in F. by destruct (no_match_first_max _ _ _ _ _ N F).
Qed.

Lemma exact_cases dc db :
  (exists i r, first_max (exact_query dc) natural db i r) \/
  no_match (exact_query dc) db.
Proof.
  destruct (find_one (exact_query dc) db) as [[j r']|] eqn:F.
  - left. exists j, r'. by apply find_one_Some.
  - right. by apply find_one_None.
Qed.

(** The scan of the contains tier selects by descending [use_count]. *)
Lemma contains_scan dc db :
  match List.find (pattern_in dc)
          (sort_use_count_desc (find (is_type contains_) db)) with
  | Some (i, r) => first_max (contains_query dc) use_count db i r
  | None => no_match (contains_query dc) db
  end.
Proof.
  pose proof (find_sorted (pattern_in dc) (find (is_type contains_) db)) as H.
  destruct (List.find _ _) as [[i r]|].
  - by apply (picks_first_max (is_type contains_)
                (fun x => Py.contains dc (upper (pattern x))) use_count).
  - intros j r' Hj. unfold contains_query.
    destruct (is_type contains_ r') eqn:T; [|done]. simpl.
    apply (H (j, r')). by apply find_In.
Qed.

Lemma contains_match_hit now dc db i r :
  first_max (contains_query dc) use_count db i r ->
  _contains_match now dc db =
  (Some (hit (category_id r) f0_9 contains_), _update_rule_usage now i db).
Proof.
  intros H. unfold _contains_match. pose proof (contains_scan dc db) as S.
  destruct (List.find _ _) as [[j r']|].
  - by destruct (first_max_unique _ _ _ _ _ _ _ H S) as [<- <-].
  - by destruct (no_match_first_max _ _ _ _ _ S H).
Qed.

Lemma contains_match_miss now dc db :
  no_match (contains_query dc) db -> _contains_match now dc db = (None, db).
Proof.
  intros N. unfold _contains_match. pose proof (contains_scan dc db) as S.
  destruct (List.find _ _) as [[j r']|]; [|done].
  by destruct (no_match_first_max _ _ _ _ _ N S).
Qed.

Lemma contains_cases dc db :
  (exists i r, first_max (contains_query dc) use_count db i r) \/
  no_match (contains_query dc) db.
Proof.
  pose proof (contains_scan dc db) as S.
  destruct (List.find _ _) as [[j r']|]; eauto.
Qed.

(** The loop of the fuzzy tier keeps the first rule of largest score, if
    some score is above 0. *)
Lemma fuzzy_loop dc l :
  match fold_left (fuzzy_step fuzz_ratio dc) l (None, 0, None) with
  | (bm, bs, Some x) =>
    bm = Some (category_id (snd x)) /\ bs = score dc (snd x) /\ 0 < bs /\
    picks (fun _ => true) (fun y => score dc (snd y)) l x
  | (bm, bs, None) =>
    bm = None /\ bs = 0 /\ forall y, In y l -> score dc (snd y) <= 0
  end.
Proof.
  induction l as [|a l IH] using rev_ind; [simpl; easy|].
  rewrite fold_left_app. simpl.
  destruct (fold_left _ l _) as [[bm bs] br]. unfold fuzzy_step at 1.
  fold (score dc (snd a)).
  destruct (Z.ltb_spec bs (score dc (snd a))) as [Hlt|Hge].
  - assert (forall y, In y l -> score dc (snd y) < score dc (snd a)) as Hall.
    { destruct br as [x|].
      - destruct IH as (_ & -> & _ & l1 & l2 & -> & _ & H1 & H2).
        intros y [Hy|[<-|Hy]]%in_app_or; [|done|].
        + specialize (H1 _ Hy eq_refl). lia.
        + specialize (H2 _ Hy eq_refl). lia.
      - destruct IH as (_ & -> & H). intros y Hy. specialize (H _ Hy). lia. }
    split; [done|]. split; [done|]. split.
    { destruct br; [destruct IH as (_ & _ & ? & _)|destruct IH as (_ & ? & _)]; lia. }
    exists l, []. repeat split; [|easy]. intros y Hy _. by apply Hall.
  - destruct br as [x|].
    + destruct IH as (-> & -> & Hpos & l1 & l2 & -> & _ & H1 & H2).
      repeat split; [done|]. exists l1, (l2 ++ [a]).
      rewrite <- app_assoc. repeat split; [done|].
      intros y [Hy|[<-|[]]]%in_app_or _; [by apply H2|lia].
    + destruct IH as (-> & -> & H). repeat split.
      intros y [Hy|[<-|[]]]%in_app_or; [by apply H|lia].
Qed.

Lemma fuzzy_match_cases now dc db :
  (exists i r, first_max (is_type fuzzy) (score dc) db i r /\
     80 <= score dc r /\
     _fuzzy_match fuzz_ratio now dc db =
     (Some (hit (category_id r) (fdiv (of_Z (score dc r)) f100_0) fuzzy),
      _update_rule_usage now i db)) \/
  ((forall j r', db !! j = Some r' -> is_type fuzzy r' = true ->
      score dc r' < 80) /\
   _fuzzy_match fuzz_ratio now dc db = (None, db)).
Proof.
  unfold _fuzzy_match. pose proof (fuzzy_loop dc (find (is_type fuzzy) db)) as L.
  destruct (fold_left _ _ _) as [[bm bs] [[i r]|]].
  - destruct L as (-> & -> & Hpos & Hp). simpl in *.
    apply (picks_first_max (is_type fuzzy) (fun _ => true) (score dc)) in Hp.
    apply (first_max_ext _ (is_type fuzzy)) in Hp; [|intros; apply andb_true_r].
    destruct (Z.leb_spec 80 (score dc r)) as [Hle|Hgt].
    + left. exists i, r. done.
    + right. split; [|done]. intros j r' Hj Tj.
      destruct Hp as (_ & _ & M). specialize (M _ _ Hj Tj). lia.
  - destruct L as (-> & -> & H). simpl. right. split; [|done].
    intros j r' Hj Tj. specialize (H (j, r')). simpl in H.
    enough (score dc r' <= 0) by lia. apply H. by apply find_In.
Qed.


(** The tiers of [categorize], in their order. *)
Lemma categorize_tiers (now : Z) (description : text) (db : list rule) :
  let dc := normalize description in
  let res := fst (categorize fuzz_ratio now description db) in
  (forall i r, first_max (exact_query dc) natural db i r ->
     res = hit (category_id r) f1_0 exact) /\
  (no_match (exact_query dc) db ->
   forall i r, first_max (contains_query dc) use_count db i r ->
     res = hit (category_id r) f0_9 contains_) /\
  (no_match (exact_query dc) db -> no_match (contains_query dc) db ->
   forall i r, first_max (is_type fuzzy) (score dc) db i r ->
     80 <= score dc r ->
     res = hit (category_id r) (fdiv (of_Z (score dc r)) f100_0) fuzzy) /\
  (no_match (exact_query dc) db -> no_match (contains_query dc) db ->
   (forall j r', db !! j = Some r' -> is_type fuzzy r' = true ->
      score dc r' < 80) ->
   res = hit 0 f0_0 none).
Proof.
  intros dc res. subst res. unfold categorize. fold (normalize description).
  fold dc. repeat split.
  - intros i r H. by rewrite (exact_match_hit now dc db i r H).
  - intros NE i r H. rewrite (exact_match_miss now dc db NE).
    by rewrite (contains_match_hit now dc db i r H).
  - intros NE NC i r H Hs. rewrite (exact_match_miss now dc db NE).
    rewrite (contains_match_miss now dc db NC).
    destruct (fuzzy_match_cases now dc db) as [(j & r' & H' & _ & ->)|[M _]].
    + by destruct (first_max_unique _ _ _ _ _ _ _ H H') as [<- <-].
    + destruct H as (Hi & Ti & _). specialize (M _ _ Hi Ti). lia.
  - intros NE NC M. rewrite (exact_match_miss now dc db NE).
    rewrite (contains_match_miss now dc db NC).
    destruct (fuzzy_match_cases now dc db) as [(j & r' & H' & Hs & _)|[_ ->]];
      [|done].
    destruct H' as (Hj & Tj & _). specialize (M _ _ Hj Tj). lia.
Qed.

(** The four cases of [categorize_tiers] cover every collection. *)
Lemma categorize_cases (dc : text) (db : list rule) :
  (exists i r, first_max (exact_query dc) natural db i r) \/
  (no_match (exact_query dc) db /\
   ((exists i r, first_max (contains_query dc) use_count db i r) \/
    (no_match (contains_query dc) db /\
     ((exists i r, first_max (is_type fuzzy) (score dc) db i r /\
                   80 <= score dc r) \/
      (forall j r', db !! j = Some r' -> is_type fuzzy r' = true ->
         score dc r' < 80))))).
Proof.
  destruct (exact_cases dc db) as [?|NE]; [by left|]. right. split; [done|].
  destruct (contains_cases dc db) as [?|NC]; [by left|]. right. split; [done|].
  destruct (fuzzy_match_cases 0 dc db) as [(i & r & H & Hs & _)|[M _]]; eauto.
Qed.

(** What [categorize] returns and leaves behind, tier by tier. *)
Lemma categorize_outcome (now : Z) (description : text) (db : list rule) :
  let dc := normalize description in
  (exists i r, db !! i = Some r /\
     (first_max (exact_query dc) natural db i r \/
      (no_match (exact_query dc) db /\
       (first_max (contains_query dc) use_count db i r \/
        (no_match (contains_query dc) db /\
         first_max (is_type fuzzy) (score dc) db i r /\ 80 <= score dc r)))) /\
     snd (categorize fuzz_ratio now description db) =
     _update_rule_usage now i db) \/
  (fst (categorize fuzz_ratio now description db) = hit 0 f0_0 none /\
   snd (categorize fuzz_ratio now description db) = db).
Proof.
  intros dc. unfold categorize. fold (normalize description). fold dc.
  destruct (exact_cases dc db) as [(i & r & H)|NE].
  { left. exists i, r. rewrite (exact_match_hit now dc db i r H).
    split; [apply H|]. split; [by left|done]. }
  rewrite (exact_match_miss now dc db NE).
  destruct (contains_cases dc db) as [(i & r & H)|NC].
  { left. exists i, r. rewrite (contains_match_hit now dc db i r H).
    split; [apply H|]. split; [right; split; [done|by left]|done]. }
  rewrite (contains_match_miss now dc db NC).
  destruct (fuzzy_match_cases now dc db) as [(i & r & H & Hs & ->)|[M ->]].
  - left. exists i, r. split; [apply H|]. split; [|done].
    right. split; [done|]. right. done.
  - right. done.
Qed.

(** The result does not depend on the time of the call. *)
Lemma categorize_result_now (now now' : Z) (description : text) (db : list rule) :
  fst (categorize fuzz_ratio now description db) =
  fst (categorize fuzz_ratio now' description db).
Proof.
  destruct (categorize_tiers now description db) as (E1 & K1 & F1 & N1).
  destruct (categorize_tiers now' description db) as (E2 & K2 & F2 & N2).
  destruct (categorize_cases (normalize description) db)
    as [(i & r & H)|[NE [(i & r & H)|[NC [(i & r & H & Hs)|M]]]]].
  - by rewrite (E1 _ _ H), (E2 _ _ H).
  - by rewrite (K1 NE _ _ H), (K2 NE _ _ H).
  - by rewrite (F1 NE NC _ _ H Hs), (F2 NE NC _ _ H Hs).
  - by rewrite (N1 NE NC M), (N2 NE NC M).
Qed.

(** C3.  [categorize] tries the tiers in the order exact, contains, fuzzy
    and stops at the first hit.  An exact rule for the normalized
    description (the first one in natural order) gives confidence 1.0.
    Otherwise the contains rule whose upper-cased pattern occurs in the
    normalized description and that comes first by descending [use_count]
    gives confidence 0.9.  Otherwise the fuzzy rule of best score, the first
    one among equal scores, is accepted when its score is at least 80, with
    confidence score / 100.0.  When no tier hits the result is category 0,
    confidence 0.0, match type none.  One of the four always applies. *)
Theorem categorize_cascade (now : Z) (description : text) (db : list rule) :
  let dc := normalize description in
  let res := fst (categorize fuzz_ratio now description db) in
  (forall i r, first_max (exact_query dc) natural db i r ->
     res = hit (category_id r) f1_0 exact) /\
  (no_match (exact_query dc) db ->
   forall i r, first_max (contains_query dc) use_count db i r ->
     res = hit (category_id r) f0_9 contains_) /\
  (no_match (exact_query dc) db -> no_match (contains_query dc) db ->
   forall i r, first_max (is_type fuzzy) (score dc) db i r ->
     80 <= score dc r ->
     res = hit (category_id r) (fdiv (of_Z (score dc r)) f100_0) fuzzy) /\
  (no_match (exact_query dc) db -> no_match (contains_query dc) db ->
   (forall j r', db !! j = Some r' -> is_type fuzzy r' = true ->
      score dc r' < 80) ->
   res = hit 0 f0_0 none) /\
  ((exists i r, first_max (exact_query dc) natural db i r /\
      res = hit (category_id r) f1_0 exact) \/
   (exists i r, first_max (contains_query dc) use_count db i r /\
      res = hit (category_id r) f0_9 contains_) \/
   (exists i r, first_max (is_type fuzzy) (score dc) db i r /\
      80 <= score dc r /\
      res = hit (category_id r) (fdiv (of_Z (score dc r)) f100_0) fuzzy) \/
   res = hit 0 f0_0 none).
Proof.
  intros dc res.
  destruct (categorize_tiers now description db) as (E & K & F & N).
  fold dc res in E, K, F, N. do 4 (split; [done|]).
  destruct (categorize_cases dc db)
    as [(i & r & H)|[NE [(i & r & H)|[NC [(i & r & H & Hs)|M]]]]].
  - left. exists i, r. split; [done|by apply (E i)].
  - right. left. exists i, r. split; [done|by apply (K NE i)].
  - right. right. left. exists i, r. split; [done|].
    split; [done|by apply (F NE NC i)].
  - right. right. right. by apply N.
Qed.

(** C6.  Two calls of [categorize] on the same description, with nothing
    learned in between, return the same category, match type and
    confidence: the use recorded by the first call does not change which
    rule the second call selects. *)
Theorem categorize_idempotent (now1 now2 : Z) (description : text)
  (db : list rule) :
  fst (categorize fuzz_ratio now2 description
         (snd (categorize fuzz_ratio now1 description db))) =
  fst (categorize fuzz_ratio now1 description db).
Proof.
  pose proof (categorize_tiers now1 description db) as C1.
  destruct (categorize_outcome now1 description db)
    as [(i & r & Hi & Hc & ->)|[_ ->]].
  2: { apply categorize_result_now. }
  pose proof (categorize_tiers now2 description
                (_update_rule_usage now1 i db)) as C2.
  cbv zeta in C1, C2. set (dc := normalize description) in *.
  destruct C1 as (E1 & K1 & F1 & _). destruct C2 as (E2 & K2 & F2 & _).
  destruct Hc as [H|[NE [H|(NC & H & Hs)]]].
  - rewrite (E1 _ _ H).
    apply (first_max_touch now1) in H; [|done|unfold natural; lia].
    by rewrite (E2 _ _ H).
  - rewrite (K1 NE _ _ H).
    apply (first_max_touch now1) in H; [|done|simpl; lia].
    apply (no_match_touch now1 _ _ i) in NE; [|done].
    by rewrite (K2 NE _ _ H).
  - rewrite (F1 NE NC _ _ H Hs).
    apply (first_max_touch now1) in H; [|done|unfold fuzzy_score; simpl; lia].
    apply (no_match_touch now1 _ _ i) in NE; [|done].
    apply (no_match_touch now1 _ _ i) in NC; [|done].
    by rewrite (F2 NE NC _ _ H Hs).
Qed.

End Tiers.


(** *** Learning *)

Lemma has_pattern_spec p m r :
  has_pattern p m r = true <-> pattern r = p /\ rule_match_type r = m.
Proof.
  unfold has_pattern, is_type. rewrite andb_true_iff, eqb_text_eq.
  destruct (rule_match_type r), m; simpl; intuition congruence.
Qed.

(** The collection after [learn_from_categorization]: the first contains
    rule for the pattern, when there is one, is given the category (its
    use recorded when the category changes); otherwise a rule is appended. *)
Lemma learn_db now d c db :
  let p := merchant_pattern d in
  match find_one (has_pattern p contains_) db with
  | Some (i, r) =>
    first_max (has_pattern p contains_) natural db i r /\
    snd (learn_from_categorization now d c db) =
    (if category_id r =? c then db else alter (recategorize now c) i db)
  | None =>
    no_match (has_pattern p contains_) db /\
    snd (learn_from_categorization now d c db) =
    db ++ [mk_rule p c contains_ now now 1]
  end.
Proof.
  intros p. unfold learn_from_categorization. fold (normalize d).
  fold (merchant_pattern d). fold p.
  destruct (find_one _ db) as [[i r]|] eqn:F.
  - split; [by apply find_one_Some|]. simpl. by destruct (category_id r =? c).
  - split; [by apply find_one_None|done].
Qed.

(** After learning, the rule for the pattern is stored with the category. *)
Lemma learn_stores now d c db :
  exists i r, snd (learn_from_categorization now d c db) !! i = Some r /\
    pattern r = merchant_pattern d /\ rule_match_type r = contains_ /\
    category_id r = c /\
    (forall j r', j <> i ->
       snd (learn_from_categorization now d c db) !! j = Some r' ->
       db !! j = Some r') /\
    (forall j r', (j < i)%nat -> db !! j = Some r' ->
       has_pattern (merchant_pattern d) contains_ r' = false).
Proof.
  pose proof (learn_db now d c db) as L. cbv zeta in L.
  destruct (find_one _ db) as [[i r]|].
  - destruct L as [(Hi & [Hp Ht]%has_pattern_spec & M) ->].
    assert (forall j r', (j < i)%nat -> db !! j = Some r' ->
       has_pattern (merchant_pattern d) contains_ r' = false) as Hfirst.
    { intros j r' Hlt Hj.
      destruct (has_pattern _ _ r') eqn:Q; [|done].
      specialize (M _ _ Hj Q). unfold natural in M. lia. }
    destruct (Z.eqb_spec (category_id r) c) as [E|NE].
    + exists i, r. repeat split; auto.
    + exists i, (recategorize now c r).
      rewrite list_lookup_alter_eq, Hi. repeat split; auto.
      intros j r' Hne. by rewrite list_lookup_alter_ne.
  - destruct L as [N ->]. exists (length db), (mk_rule (merchant_pattern d) c contains_ now now 1).
    rewrite lookup_app_r, Nat.sub_diag by lia. repeat split; auto.
    + intros j r' Hne Hj.
      destruct (decide (j < length db)%nat); [by rewrite lookup_app_l in Hj|].
      rewrite lookup_app_r in Hj by lia.
      destruct (j - length db)%nat eqn:E; [lia|done].
    + intros j r' _ Hj. by apply (N j).
Qed.

(** Learning keeps at most one contains rule per pattern. *)
Lemma learn_one_rule_per_pattern now d c db :
  one_rule_per_pattern db ->
  one_rule_per_pattern (snd (learn_from_categorization now d c db)).
Proof.
  intros U. pose proof (learn_db now d c db) as L. cbv zeta in L.
  destruct (find_one _ db) as [[k r0]|].
  - destruct L as [(Hk & _) ->].
    destruct (category_id r0 =? c); [done|].
    assert (forall i r, alter (recategorize now c) k db !! i = Some r ->
              exists r1, db !! i = Some r1 /\ pattern r1 = pattern r /\
                         rule_match_type r1 = rule_match_type r) as Hback.
    { intros i r Hi. destruct (decide (k = i)) as [<-|Hne].
      - rewrite list_lookup_alter_eq, Hk in Hi. injection Hi as <-. eauto.
      - rewrite list_lookup_alter_ne in Hi by done. eauto. }
    intros i j r r' Hi Hj Ti Tj E.
    destruct (Hback _ _ Hi) as (r1 & Hi1 & P1 & T1).
    destruct (Hback _ _ Hj) as (r2 & Hj2 & P2 & T2).
    apply (U i j r1 r2); congruence.
  - destruct L as [N ->].
    assert (forall i r, (db ++ [mk_rule (merchant_pattern d) c contains_ now now 1])
                          !! i = Some r ->
              (db !! i = Some r /\ (i < length db)%nat) \/
              (i = length db /\ r = mk_rule (merchant_pattern d) c contains_ now now 1))
      as Hcase.
    { intros i r Hi. destruct (decide (i < length db)%nat).
      - left. by rewrite lookup_app_l in Hi.
      - right. rewrite lookup_app_r in Hi by lia.
        destruct (i - length db)%nat eqn:E; [|done]. injection Hi as <-.
        split; [lia|done]. }
    intros i j r r' Hi Hj Ti Tj E.
    destruct (Hcase _ _ Hi) as [[Hi' Li]|[-> ->]],
             (Hcase _ _ Hj) as [[Hj' Lj]|[-> ->]]; [by apply (U i j r r')| | |done].
    + specialize (N _ _ Hi'). simpl in E.
      assert (has_pattern (merchant_pattern d) contains_ r = true)
        by (by apply has_pattern_spec). congruence.
    + specialize (N _ _ Hj'). simpl in E.
      assert (has_pattern (merchant_pattern d) contains_ r' = true)
        by (by apply has_pattern_spec). congruence.
Qed.

(** C1.  On a collection holding the rule COSTCO WHOLESALE with category 1,
    learning category 2 for "COSTCO WHOLESALE #123" stores category 2, the
    refreshed time and the incremented count on that rule and adds no rule,
    but the rule handed back to the caller is the document read before the
    update: it still carries category 1 and count 1. *)
Theorem learn_returns_stale_rule :
  let db := [mk_rule (str "COSTCO WHOLESALE") 1 contains_ 5 5 1] in
  let out := learn_from_categorization 7 (str "COSTCO WHOLESALE #123") 2 db in
  snd out = [mk_rule (str "COSTCO WHOLESALE") 2 contains_ 5 7 2] /\
  fst out = (O, mk_rule (str "COSTCO WHOLESALE") 1 contains_ 5 5 1).
Proof. vm_compute. done. Qed.


(** *** The merchant pattern keeps to the characters of the description *)

Section Characters.

Variable P : ascii -> Prop.

Lemma lstrip_Forall s : Forall P s -> Forall P (lstrip s).
Proof.
  induction 1 as [|c s Hc Hs IH]; simpl; [done|].
  destruct (is_space c); [done|by constructor].
Qed.

Lemma strip_Forall s : Forall P s -> Forall P (strip s).
Proof.
  intros H. unfold strip, rstrip.
  apply Forall_rev, lstrip_Forall, Forall_rev, lstrip_Forall, H.
Qed.

Lemma sub_store_number_Forall b s :
  Forall P s -> Forall P (sub_store_number b s).
Proof.
  intros H. revert b. induction H as [|c s Hc Hs IH]; intros b; simpl; [done|].
  destruct (b && is_digit c); [done|].
  destruct (eqb_char c hash && _); [done|by constructor].
Qed.

Lemma sub_date_Forall n s : Forall P s -> Forall P (sub_date n s).
Proof.
  intros H. revert n. induction H as [|c s Hc Hs IH]; intros n; [done|].
  cbn [sub_date]. destruct n; [|done].
  destruct (date_match (c :: s)); [done|by constructor].
Qed.

Lemma sub_trailing_number_Forall s :
  Forall P s -> Forall P (sub_trailing_number s).
Proof.
  induction 1 as [|c s Hc Hs IH]; [done|]. cbn [sub_trailing_number].
  destruct (is_trailing_number (c :: s)); [done|by constructor].
Qed.

Lemma split_Forall s : Forall P s -> Forall (Forall P) (split s).
Proof.
  induction 1 as [|c s Hc Hs IH]; [done|]. cbn [split].
  destruct (is_space c); [done|].
  destruct s as [|d s]; [by repeat constructor|].
  destruct (is_space d); [by repeat constructor|].
  destruct (split (d :: s)) as [|w ws]; [by repeat constructor|].
  inversion IH; subst. by repeat constructor.
Qed.

Lemma join_Forall sep ws :
  Forall P sep -> Forall (Forall P) ws -> Forall P (join sep ws).
Proof.
  intros Hsep. induction 1 as [|w ws Hw Hws IH]; [done|]. cbn [join].
  destruct ws; [done|]. by rewrite !Forall_app.
Qed.

Lemma extract_Forall s :
  P space -> Forall P s -> Forall P (_extract_merchant_pattern s).
Proof.
  intros Hsp H. unfold _extract_merchant_pattern.
  assert (Forall P (join [space] (split (sub_trailing_number
            (sub_date 0 (sub_store_number false s)))))) as Hj.
  { apply join_Forall; [by repeat constructor|].
    apply split_Forall, sub_trailing_number_Forall, sub_date_Forall,
      sub_store_number_Forall, H. }
  apply strip_Forall. destruct (_ <? _)%nat; [|done].
  apply join_Forall; [by repeat constructor|].
  apply Forall_take, split_Forall, Hj.
Qed.

End Characters.

(** A merchant pattern is in upper case already. *)
Lemma merchant_pattern_upper d : upper (merchant_pattern d) = merchant_pattern d.
Proof.
  assert (Forall (fun c => upper_char c = c) (merchant_pattern d)) as H.
  { apply extract_Forall; [done|]. unfold normalize, upper.
    apply Forall_map, Forall_true. intros c. apply upper_char_idemp. }
  unfold upper. induction H as [|c s Hc Hs IH]; [done|]. simpl. by rewrite Hc, IH.
Qed.


(** *** Learning, then classifying *)

Lemma is_type_spec m r : is_type m r = true <-> rule_match_type r = m.
Proof. unfold is_type. destruct (rule_match_type r), m; simpl; intuition congruence. Qed.

Lemma contains_query_spec dc r :
  contains_query dc r = true <->
  rule_match_type r = contains_ /\ Py.contains dc (upper (pattern r)) = true.
Proof. unfold contains_query. by rewrite andb_true_iff, is_type_spec. Qed.

Lemma no_match_alter (q : rule -> bool) (f : rule -> rule) i db :
  (forall x, q (f x) = q x) -> no_match q db -> no_match q (alter f i db).
Proof.
  intros Eq N j r' Hj. destruct (decide (i = j)) as [<-|Hne].
  - rewrite list_lookup_alter_eq in Hj.
    destruct (db !! i) as [r|] eqn:Hi; [|done]. injection Hj as <-.
    rewrite Eq. by apply (N i).
  - rewrite list_lookup_alter_ne in Hj by done. by apply (N j).
Qed.

Lemma has_contains_rule_alter p (f : rule -> rule) i db :
  (forall x, pattern (f x) = pattern x) ->
  (forall x, rule_match_type (f x) = rule_match_type x) ->
  has_contains_rule p db -> has_contains_rule p (alter f i db).
Proof.
  intros Ep Et (k & r & Hk & Tk & Pk). destruct (decide (i = k)) as [->|Hne].
  - exists k, (f r). rewrite list_lookup_alter_eq, Hk, Ep, Et. done.
  - exists k, r. by rewrite list_lookup_alter_ne.
Qed.

Lemma has_contains_rule_app p db l :
  has_contains_rule p db -> has_contains_rule p (db ++ l).
Proof.
  intros (k & r & Hk & Tk & Pk). exists k, r. split; [|done].
  by apply lookup_app_l_Some.
Qed.

Section Learned.

Variable fuzz_ratio : text -> text -> Z.

(** C2 (amended).  When the merchant pattern derived from [d] occurs in
    the normalized description [d'] that is classified next, on a
    collection with at most one contains rule per pattern, no exact rule
    for [d'] and no contains rule for another pattern occurring in [d'],
    [learn(d, c)] followed by [classify(d')] returns category [c], match
    type contains and confidence 0.9. *)
Theorem learn_then_categorize (now1 now2 : Z) (d d' : text) (c : Z)
  (db : list rule) :
  Py.contains (normalize d') (merchant_pattern d) = true ->
  one_rule_per_pattern db ->
  no_match (exact_query (normalize d')) db ->
  (forall j r', db !! j = Some r' -> contains_query (normalize d') r' = true ->
     pattern r' = merchant_pattern d) ->
  fst (categorize fuzz_ratio now2 d'
         (snd (learn_from_categorization now1 d c db))) = hit c f0_9 contains_.
Proof.
  intros Hin U NE Only.
  set (db1 := snd (learn_from_categorization now1 d c db)).
  enough (exists i r, first_max (contains_query (normalize d')) use_count db1 i r
                      /\ category_id r = c /\
                      no_match (exact_query (normalize d')) db1)
    as (i & r & H & <- & NE1).
  { destruct (categorize_tiers fuzz_ratio now2 d' db1) as (_ & K & _).
    by apply (K NE1 i). }
  assert (forall r, pattern r = merchant_pattern d ->
            rule_match_type r = contains_ ->
            contains_query (normalize d') r = true) as Hq.
  { intros r Hp Ht. apply contains_query_spec.
    by rewrite Hp, merchant_pattern_upper. }
  pose proof (learn_db now1 d c db) as L. cbv zeta in L. subst db1.
  destruct (find_one _ db) as [[i r0]|].
  - destruct L as [(Hi & [Hp Ht]%has_pattern_spec & _) ->].
    assert (forall j r', j <> i -> db !! j = Some r' ->
              contains_query (normalize d') r' = false) as Hother.
    { intros j r' Hne Hj. destruct (contains_query _ r') eqn:Q; [|done].
      destruct Hne. apply (U j i r' r0); auto.
      - by apply contains_query_spec in Q as [Q _].
      - rewrite Hp. by apply Only with j. }
    destruct (Z.eqb_spec (category_id r0) c) as [E|NEc].
    + exists i, r0. repeat split; auto.
      intros j r' Hj Qj. destruct (decide (j = i)) as [->|Hne].
      * right. split; [congruence|lia].
      * by rewrite (Hother _ _ Hne Hj) in Qj.
    + exists i, (recategorize now1 c r0). repeat split.
      * by rewrite list_lookup_alter_eq, Hi.
      * by apply Hq.
      * intros j r' Hj Qj. destruct (decide (j = i)) as [->|Hne].
        -- rewrite list_lookup_alter_eq, Hi in Hj. injection Hj as <-.
           right. split; [done|lia].
        -- rewrite list_lookup_alter_ne in Hj by done.
           by rewrite (Hother _ _ Hne Hj) in Qj.
      * by apply no_match_alter.
  - destruct L as [N ->].
    set (new := mk_rule (merchant_pattern d) c contains_ now1 now1 1).
    assert (forall j r', (db ++ [new]) !! j = Some r' ->
              (db !! j = Some r' /\ (j < length db)%nat) \/
              (j = length db /\ r' = new)) as Hcase.
    { intros j r' Hj. destruct (decide (j < length db)%nat).
      - left. by rewrite lookup_app_l in Hj.
      - right. rewrite lookup_app_r in Hj by lia.
        destruct (j - length db)%nat eqn:E; [|done]. injection Hj as <-.
        split; [lia|done]. }
    exists (length db), new. repeat split.
    + by rewrite lookup_app_r, Nat.sub_diag by lia.
    + by apply Hq.
    + intros j r' Hj Qj. destruct (Hcase _ _ Hj) as [[Hj' Lj]|[-> ->]].
      * assert (has_pattern (merchant_pattern d) contains_ r' = true) as Q.
        { apply has_pattern_spec. split; [by apply Only with j|].
          by apply contains_query_spec in Qj as [Qj _]. }
        by rewrite (N _ _ Hj') in Q.
      * right. split; [done|lia].
    + intros j r' Hj. destruct (Hcase _ _ Hj) as [[Hj' Lj]|[-> ->]];
        [by apply (NE j)|].
      unfold exact_query, has_pattern. apply andb_false_r.
Qed.


(** A collection with a contains rule for the empty pattern keeps one under
    every call. *)
Lemma run_call_keeps_rule p o db :
  has_contains_rule p db -> has_contains_rule p (run_call fuzz_ratio db o).
Proof.
  intros H. destruct o as [now d|now d c]; simpl.
  - destruct (categorize_outcome fuzz_ratio now d db)
      as [(i & r & _ & _ & ->)|[_ ->]]; [|done].
    by apply has_contains_rule_alter.
  - pose proof (learn_db now d c db) as L. cbv zeta in L.
    destruct (find_one _ db) as [[i r]|].
    + destruct L as [_ ->]. destruct (_ =? _); [done|].
      by apply has_contains_rule_alter.
    + destruct L as [_ ->]. by apply has_contains_rule_app.
Qed.

Lemma run_keeps_rule p calls db :
  has_contains_rule p db -> has_contains_rule p (run fuzz_ratio calls db).
Proof.
  unfold run. revert db. induction calls as [|o calls IH]; intros db H; [done|].
  simpl. by apply IH, run_call_keeps_rule.
Qed.

(** C10 (amended).  When the merchant pattern derived from a description is
    empty, learning stores a contains rule with the empty pattern and the
    given category.  From then on, whatever is classified or learned in
    between, no description is classified as none, and every call of
    [categorize] that reaches the contains tier hits there: it returns
    confidence 0.9, match type contains and the category of the contains rule
    that comes first by descending [use_count] among those whose pattern
    occurs in the description (the empty pattern occurs in every one). *)
Theorem empty_pattern_rule_catches_all (now : Z) (d : text) (c : Z)
  (db : list rule) :
  merchant_pattern d = [] ->
  let db1 := snd (learn_from_categorization now d c db) in
  (exists i r, db1 !! i = Some r /\ pattern r = [] /\
     rule_match_type r = contains_ /\ category_id r = c) /\
  forall (calls : list call) (now' : Z) (d' : text),
    let db2 := run fuzz_ratio calls db1 in
    let res := fst (categorize fuzz_ratio now' d' db2) in
    res_match_type res <> none /\
    (no_match (exact_query (normalize d')) db2 ->
     exists i r, first_max (contains_query (normalize d')) use_count db2 i r /\
       res = hit (category_id r) f0_9 contains_).
Proof.
  intros Hp db1.
  destruct (learn_stores now d c db) as (i & r & Hi & Pr & Tr & Cr & _).
  fold db1 in Hi. rewrite Hp in Pr.
  split; [by exists i, r|].
  intros calls now' d' db2 res.
  assert (has_contains_rule [] db2) as (k & rk & Hk & Tk & Pk).
  { apply run_keeps_rule. by exists i, r. }
  assert (contains_query (normalize d') rk = true) as Qk.
  { apply contains_query_spec. split; [done|]. rewrite Pk. apply contains_nil. }
  destruct (categorize_tiers fuzz_ratio now' d' db2) as (E & K & _).
  fold res in E, K.
  destruct (categorize_cases fuzz_ratio (normalize d') db2)
    as [(j & r' & H)|[NE [(j & r' & H)|[NC _]]]].
  - split; [by rewrite (E _ _ H)|].
    intros NE. by destruct (no_match_first_max _ _ _ _ _ NE H).
  - split; [by rewrite (K NE _ _ H)|]. intros _. exists j, r'.
    split; [done|by apply (K NE j)].
  - by rewrite (NC _ _ Hk) in Qk.
Qed.

End Learned.

(** C2, the scenario of the specification: learning category 1 for
    "COSTCO WHOLESALE #123" on an empty collection, then classifying
    "COSTCO WHOLESALE #456 MONTREAL". *)
Lemma learn_then_categorize_costco :
  fst (categorize (fun _ _ => 0) 2 (str "COSTCO WHOLESALE #456 MONTREAL")
         (snd (learn_from_categorization 1 (str "COSTCO WHOLESALE #123") 1 [])))
  = hit 1 f0_9 contains_.
Proof.
  apply (learn_then_categorize (fun _ _ => 0) 1 2
           (str "COSTCO WHOLESALE #123")
           (str "COSTCO WHOLESALE #456 MONTREAL") 1 []).
  - vm_compute. reflexivity.
  - intros i j r r' Hi. destruct i; discriminate Hi.
  - intros j r' Hj. destruct j; discriminate Hj.
  - intros j r' Hj. destruct j; discriminate Hj.
Defined.

(** C2 as claimed fails: the store number in the middle of
    "COSTCO #123 WHOLESALE" is cut out of the pattern, which becomes
    "COSTCO WHOLESALE" and does not occur in the description it was derived
    from; on an empty collection the description is classified as none
    right after it was learned.  (The collection holds no fuzzy rule, so
    the scorer is not consulted.) *)
Lemma learn_then_categorize_same_fails :
  merchant_pattern (str "COSTCO #123 WHOLESALE") = str "COSTCO WHOLESALE" /\
  fst (categorize (fun _ _ => 0) 2 (str "COSTCO #123 WHOLESALE")
         (snd (learn_from_categorization 1 (str "COSTCO #123 WHOLESALE") 1 [])))
  = hit 0 f0_0 none.
Proof. vm_compute. done. Qed.

(** Descriptions made of tokens the extraction removes have the empty
    merchant pattern. *)
Lemma merchant_pattern_empty :
  merchant_pattern (str "#123") = [] /\
  merchant_pattern (str "12/25/2024") = [] /\
  merchant_pattern (str " #7  1-2-24 ") = [].
Proof. by vm_compute. Qed.

(** C10, an instance: "#123" has the empty merchant pattern. *)
Lemma empty_pattern_rule_catches_all_store_number :
  let db1 := snd (learn_from_categorization 1 (str "#123") 7 []) in
  (exists i r, db1 !! i = Some r /\ pattern r = [] /\
     rule_match_type r = contains_ /\ category_id r = 7) /\
  forall (calls : list call) (now' : Z) (d' : text),
    let db2 := run (fun _ _ => 0) calls db1 in
    let res := fst (categorize (fun _ _ => 0) now' d' db2) in
    res_match_type res <> none /\
    (no_match (exact_query (normalize d')) db2 ->
     exists i r, first_max (contains_query (normalize d')) use_count db2 i r /\
       res = hit (category_id r) f0_9 contains_).
Proof.
  apply (empty_pattern_rule_catches_all (fun _ _ => 0) 1 (str "#123") 7 []).
  vm_compute. reflexivity.
Defined.

(** C10 as claimed fails: with a rule COSTCO of category 5 and count 10 in
    the collection, learning category 7 for "#123" appends the rule with the
    empty pattern, and "COSTCO MONTREAL" then reaches the contains tier and
    is given category 5, the category of the rule scanned first, not the
    category 7 of the empty pattern. *)
Lemma empty_pattern_rule_not_always_chosen :
  let db := [mk_rule (str "COSTCO") 5 contains_ 0 0 10] in
  let db1 := snd (learn_from_categorization 1 (str "#123") 7 db) in
  merchant_pattern (str "#123") = [] /\
  db1 = db ++ [mk_rule [] 7 contains_ 1 1 1] /\
  fst (categorize (fun _ _ => 0) 2 (str "COSTCO MONTREAL") db1)
  = hit 5 f0_9 contains_.
Proof. vm_compute. done. Qed.


(** *** Batch propagation *)

Lemma float_same_eq x y : float_same x y = true <-> x = y.
Proof.
  destruct x, y; simpl; try easy;
    rewrite ?andb_true_iff, ?Bool.eqb_true_iff, ?Pos.eqb_eq, ?Z.eqb_eq;
    intuition congruence.
Qed.

Lemma is_assigned_spec c t : is_assigned c t = true <-> assign_category c t = t.
Proof.
  unfold is_assigned, assign_category.
  rewrite !andb_true_iff, Z.eqb_eq, Bool.eqb_true_iff, float_same_eq.
  destruct t; simpl. intuition congruence.
Qed.

Lemma is_assigned_assign c t : is_assigned c (assign_category c t) = true.
Proof. by apply is_assigned_spec. Qed.

(** [update_many] rewrites the documents whose [_id] is listed and counts
    those it changed. *)
Lemma update_many_spec ids c k db :
  let '(db', n) := update_many ids c k db in
  length db' = length db /\
  (forall i t, db !! i = Some t ->
     db' !! i = Some (if existsb (Nat.eqb (k + i)) ids
                      then assign_category c t else t)) /\
  n = changed db db'.
Proof.
  revert k. induction db as [|t db IH]; intros k; simpl; [easy|].
  specialize (IH (S k)). destruct (update_many ids c (S k) db) as [db' n].
  destruct IH as (Hlen & Hlook & Hn).
  assert (forall i t0, db !! i = Some t0 ->
            db' !! i = Some (if existsb (Nat.eqb (k + S i)) ids
                             then assign_category c t0 else t0)) as Hlook'.
  { intros i t0 Hi. rewrite (Hlook _ _ Hi).
    by replace (S k + i)%nat with (k + S i)%nat by lia. }
  unfold changed in *.
  destruct (existsb (Nat.eqb k) ids) eqn:E.
  - split; [simpl; lia|]. split.
    + intros [|i] t0 Hi; simpl in *.
      * injection Hi as ->. by rewrite Nat.add_0_r, E.
      * by apply Hlook'.
    + simpl. rewrite filter_cons. simpl. destruct (is_assigned c t) eqn:A.
      * apply is_assigned_spec in A. rewrite A. by rewrite decide_False by naive_solver.
      * rewrite decide_True; [simpl; lia|].
        intros A'. symmetry in A'. apply is_assigned_spec in A'. congruence.
  - split; [simpl; lia|]. split.
    + intros [|i] t0 Hi; simpl in *.
      * injection Hi as ->. by rewrite Nat.add_0_r, E.
      * by apply Hlook'.
    + simpl. rewrite filter_cons. simpl. by rewrite decide_False by naive_solver.
Qed.

Lemma existsb_ids {A} (q : A -> bool) (db : list A) i t :
  db !! i = Some t -> existsb (Nat.eqb i) (map fst (find q db)) = q t.
Proof.
  intros Hi. destruct (q t) eqn:Q.
  - apply existsb_exists. exists i. split; [|by apply Nat.eqb_eq].
    apply in_map_iff. exists (i, t). split; [done|]. by apply find_In.
  - destruct (existsb _ _) eqn:E; [|done].
    apply existsb_exists in E as (j & Hj & <-%Nat.eqb_eq).
    apply in_map_iff in Hj as ([j t'] & <- & [Hj Q']%find_In). simpl in *.
    congruence.
Qed.

Lemma changed_same db : changed db db = O.
Proof.
  unfold changed. induction db as [|t db IH]; [done|]. simpl.
  rewrite filter_cons. simpl. by rewrite decide_False by naive_solver.
Qed.

(** What [batch_categorize_similar] does to each document. *)
Lemma batch_spec d c db :
  let q := uncategorized_like (merchant_pattern d) in
  let out := batch_categorize_similar d c db in
  length (snd out) = length db /\
  (forall i t, db !! i = Some t ->
     snd out !! i = Some (if q t then assign_category c t else t)) /\
  fst out = changed db (snd out).
Proof.
  intros q out. subst out. unfold batch_categorize_similar.
  fold (normalize d). fold (merchant_pattern d). fold q.
  destruct (map fst (find q db)) as [|a ids] eqn:Ids.
  - assert (forall i t, db !! i = Some t -> q t = false) as N.
    { intros i t Hi. by rewrite <- (existsb_ids q db i t Hi), Ids. }
    simpl. split; [done|]. split; [|by rewrite changed_same].
    intros i t Hi. by rewrite (N _ _ Hi).
  - rewrite <- Ids. pose proof (update_many_spec (map fst (find q db)) c O db) as U.
    destruct (update_many _ c O db) as [db' n]. simpl.
    destruct U as (Hlen & Hlook & Hn). split; [done|]. split; [|done].
    intros i t Hi. rewrite (Hlook _ _ Hi). simpl. by rewrite (existsb_ids q db i t Hi).
Qed.


Lemma batch_no_match d c db :
  (forall i t, db !! i = Some t ->
     uncategorized_like (merchant_pattern d) t = false) ->
  batch_categorize_similar d c db = (O, db).
Proof.
  intros N. unfold batch_categorize_similar.
  fold (normalize d). fold (merchant_pattern d).
  destruct (find _ db) as [|[i t] l] eqn:F; [done|].
  assert (In (i, t) (find (uncategorized_like (merchant_pattern d)) db)) as Hin
    by (rewrite F; by left).
  apply find_In in Hin as [Hi Q]. by rewrite (N _ _ Hi) in Q.
Qed.

(** C4.  [batch_categorize_similar] changes only transactions that had
    category 0 and whose description holds the merchant pattern, letter case
    apart; a transaction with another category is left as it is; on a
    changed transaction only [category_id] (now the given category),
    [auto_categorized] (now true) and [confidence] (now 0.9) differ; the
    count returned is the number of transactions changed; when no
    transaction matches, the count is 0 and the collection is untouched. *)
Theorem batch_categorize_frame (d : text) (c : Z) (db : list transaction) :
  let p := merchant_pattern d in
  let out := batch_categorize_similar d c db in
  length (snd out) = length db /\
  (forall i t, db !! i = Some t ->
     exists t', snd out !! i = Some t' /\
       txn_date t' = txn_date t /\ txn_description t' = txn_description t /\
       txn_amount t' = txn_amount t /\ txn_notes t' = txn_notes t /\
       (txn_category_id t <> 0 -> t' = t) /\
       (t' <> t ->
          txn_category_id t = 0 /\
          Py.contains (lower (txn_description t)) (lower p) = true /\
          txn_category_id t' = c /\ txn_auto_categorized t' = true /\
          txn_confidence t' = f0_9)) /\
  fst out = changed db (snd out) /\
  ((forall i t, db !! i = Some t -> uncategorized_like p t = false) ->
   out = (O, db)).
Proof.
  intros p out. destruct (batch_spec d c db) as (Hlen & Hlook & Hn).
  fold p out in Hlen, Hlook, Hn. split; [done|]. split; [|split; [done|]].
  - intros i t Hi. rewrite (Hlook _ _ Hi).
    destruct (uncategorized_like p t) eqn:Q.
    + exists (assign_category c t). split; [done|].
      apply andb_true_iff in Q as [Q0%Z.eqb_eq Qc]. repeat split; auto.
      congruence.
    + exists t. repeat split; auto; congruence.
  - intros N. by apply batch_no_match.
Qed.

(** The state after one propagation is a fixed point of the update. *)
Lemma batch_twice_same d c db :
  let db1 := snd (batch_categorize_similar d c db) in
  snd (batch_categorize_similar d c db1) = db1.
Proof.
  intros db1. destruct (batch_spec d c db) as (Hlen & Hlook & _).
  destruct (batch_spec d c db1) as (Hlen' & Hlook' & _). fold db1 in Hlen, Hlook.
  apply list_eq. intros i. destruct (db1 !! i) as [t1|] eqn:H1.
  - rewrite (Hlook' _ _ H1).
    destruct (db !! i) as [t|] eqn:H0.
    + rewrite (Hlook _ _ H0) in H1. injection H1 as <-.
      destruct (uncategorized_like _ t) eqn:Q.
      * destruct (uncategorized_like _ (assign_category c t)); done.
      * by rewrite Q.
    + apply lookup_ge_None in H0. apply lookup_lt_Some in H1. lia.
  - apply lookup_ge_None. apply lookup_ge_None in H1. lia.
Qed.

(** For a category other than 0 (the only ones the update endpoint passes
    on), the first propagation leaves no uncategorized transaction with the
    pattern.  (For category 0 the matching transactions stay uncategorized;
    the second update then changes none of them.) *)
Lemma batch_leaves_none_uncategorized d c db :
  c <> 0 ->
  forall i t, snd (batch_categorize_similar d c db) !! i = Some t ->
    uncategorized_like (merchant_pattern d) t = false.
Proof.
  intros Hc i t1 H1. destruct (batch_spec d c db) as (Hlen & Hlook & _).
  destruct (db !! i) as [t|] eqn:H0.
  - rewrite (Hlook _ _ H0) in H1. injection H1 as <-.
    destruct (uncategorized_like _ t) eqn:Q; [|done].
    unfold uncategorized_like. simpl. by rewrite (proj2 (Z.eqb_neq c 0)).
  - apply lookup_ge_None in H0. apply lookup_lt_Some in H1. lia.
Qed.

(** C5.  A second [batch_categorize_similar] with the same description and
    category, right after a first one, returns 0; for a category other than
    0 the first call leaves no uncategorized transaction with the pattern. *)
Theorem batch_categorize_twice (d : text) (c : Z) (db : list transaction) :
  let db1 := snd (batch_categorize_similar d c db) in
  fst (batch_categorize_similar d c db1) = O /\
  (c <> 0 ->
   forall i t, db1 !! i = Some t ->
     uncategorized_like (merchant_pattern d) t = false).
Proof.
  intros db1. split.
  - destruct (batch_spec d c db1) as (_ & _ & ->).
    unfold db1. rewrite batch_twice_same. apply changed_same.
  - intros Hc. by apply batch_leaves_none_uncategorized.
Qed.

End CategorizationFacts.

(** ** The ingestion parser *)

Module CsvFacts.
Import PyFacts.

(** *** Amounts *)

(** [parse_amount] on text, step by step. *)
Lemma parse_amount_text (s : text) :
  parse_amount (CStr s) =
  if blank_or_null s then Ok f0_0
  else match py_float (magnitude_text (strip s)) with
       | Some x =>
         Ok (if negative_form (strip s) then SFopp (SFabs x) else x)
       | None => Raise (ValueError (str "Could not parse amount: " ++ s))
       end.
Proof.
  unfold parse_amount, blank_or_null.
  destruct (strip s) as [|c t] eqn:E; [done|].
  destruct (existsb _ null_words); [done|]. simpl orb.
  unfold magnitude_text, negative_form, unwrapped.
  fold (parenthesized (c :: t)).
  destruct (parenthesized (c :: t)); cbv beta iota zeta;
    destruct (startswith (removed_symbols _) (str "-")); reflexivity.
Qed.

Lemma startswith_cons (t : text) (c : ascii) :
  startswith t [c] = true <-> exists t', t = c :: t'.
Proof.
  rewrite startswith_spec. split; intros [t' ->]; by exists t'.
Qed.

(** A cell that starts with a parenthesis or a minus sign is not a null
    word. *)
Lemma not_null_when_marked (s : text) :
  startswith (strip s) (str "(") = true \/ startswith (strip s) (str "-") = true ->
  blank_or_null s = false.
Proof.
  unfold blank_or_null.
  intros [[t ->]%startswith_cons | [t ->]%startswith_cons]; reflexivity.
Qed.

Lemma negative_form_when_marked (t : text) :
  parenthesized t = true \/ startswith t (str "-") = true ->
  negative_form t = true.
Proof.
  unfold negative_form. intros [->|H]; [done|].
  destruct (parenthesized t) eqn:P; [done|]. simpl.
  unfold unwrapped. rewrite P. apply startswith_cons in H as [t' ->].
  unfold removed_symbols, remove_char. simpl.
  apply startswith_spec. by eexists.
Qed.

(** The sign of [-abs(x)]. *)
Lemma neg_abs_sign (x : pyfloat) :
  let r := SFopp (SFabs x) in
  flt f0_0 r = false /\
  (is_nan r = false -> sign_bit r = Some true) /\
  (is_nan r = false -> is_zero r = false -> flt r f0_0 = true).
Proof. destruct x as [[]|[]| |[] m e]; simpl; repeat split; try done. Qed.


(** C7 (amended).  On every amount text that [parse_amount] accepts and
    that is wrapped in parentheses, or starts with a minus sign, or both,
    the result is never positive: it carries the negative sign, it is below
    zero whenever the magnitude read is a number other than zero, it is the
    negative zero -0.0 when the magnitude is zero, and NaN when the
    magnitude is NaN.  "(1,234.56)" gives -1234.56, "$50.00" gives 50.00 and
    "" gives 0.0. *)
Theorem parse_amount_sign :
  (forall (s : text) (r : pyfloat),
     parse_amount (CStr s) = Ok r ->
     parenthesized (strip s) = true \/ startswith (strip s) (str "-") = true ->
     flt f0_0 r = false /\
     (is_nan r = false -> sign_bit r = Some true) /\
     (is_nan r = false -> is_zero r = false -> flt r f0_0 = true)) /\
  parse_amount (CStr (str "(1,234.56)")) = Ok (SFopp (of_decimal 123456 (-2))) /\
  parse_amount (CStr (str "$50.00")) = Ok (of_decimal 5000 (-2)) /\
  parse_amount (CStr (str "")) = Ok f0_0.
Proof.
  split; [|by vm_compute].
  intros s r Hr Hm. rewrite parse_amount_text in Hr.
  rewrite not_null_when_marked in Hr.
  2: { destruct Hm as [[H _]%andb_true_iff|H]; [by left|by right]. }
  rewrite (negative_form_when_marked _ Hm) in Hr.
  destruct (py_float _) as [x|]; [|done]. injection Hr as <-.
  apply neg_abs_sign.
Qed.

(** C7, an instance: "(1,234.56)" is read as a number below zero. *)
Lemma parse_amount_sign_accounting :
  flt (SFopp (of_decimal 123456 (-2))) f0_0 = true.
Proof.
  destruct (proj1 parse_amount_sign (str "(1,234.56)")
              (SFopp (of_decimal 123456 (-2)))) as (_ & _ & H).
  - vm_compute. reflexivity.
  - left. vm_compute. reflexivity.
  - apply H; vm_compute; reflexivity.
Defined.

(** C7 as claimed fails on a zero amount in accounting form: "(0.00)" is
    accepted and gives -0.0, which is not below zero; and "(nan)" is
    accepted and gives NaN. *)
Lemma parse_amount_zero_not_negative :
  parse_amount (CStr (str "(0.00)")) = Ok (S754_zero true) /\
  flt (S754_zero true) f0_0 = false /\
  feq (S754_zero true) f0_0 = true /\
  parse_amount (CStr (str "(nan)")) = Ok S754_nan.
Proof. by vm_compute. Qed.


(** *** Rows as dictionaries *)

Lemma fold_insert_lookup (P : cell -> Prop) (l : list (text * cell))
  (d : gmap text cell) (key : text) :
  Forall (fun kv => P kv.2) l ->
  key ∈ l.*1 \/ (exists v, d !! key = Some v /\ P v) ->
  exists v, fold_left (fun d kv => <[kv.1 := kv.2]> d) l d !! key = Some v /\ P v.
Proof.
  intros Hl. revert d. induction Hl as [|[k v] l Hv Hl IH]; intros d; simpl.
  - intros [H|H]; [by apply elem_of_nil in H|done].
  - intros H. apply IH. destruct (decide (key = k)) as [->|Hne].
    + right. exists v. by rewrite lookup_insert_eq.
    + destruct H as [H|(v0 & H & Pv)].
      * left. apply elem_of_cons in H as [H|H]; [done|done].
      * right. exists v0. by rewrite lookup_insert_ne.
Qed.

(** In a complete row every header names a text cell. *)
Lemma dict_row_complete (fieldnames row : list text) (key : text) :
  complete fieldnames row -> key ∈ fieldnames ->
  exists x, dict_row fieldnames row !! key = Some (CStr x).
Proof.
  intros Hc Hk. unfold dict_row, complete in *.
  replace (length fieldnames - length row)%nat with O by lia.
  simpl. rewrite app_nil_r.
  destruct (fold_insert_lookup (fun v => exists x, v = CStr x)
              (zip fieldnames (map CStr row)) ∅ key) as (v & Hv & x & ->).
  - apply Forall_forall. intros [k v] Hin. apply elem_of_zip_r in Hin.
    simpl in *. apply list_elem_of_fmap in Hin as (x & -> & _). by exists x.
  - left. rewrite fst_zip; [done|]. rewrite length_map. lia.
  - by exists x.
Qed.

(** *** The column mapping names headers *)

Lemma header_named_elem (headers : list text) (name h : text) :
  header_named headers name = Some h -> h ∈ headers.
Proof.
  unfold header_named. intros [H _]%find_some. by apply list_elem_of_In.
Qed.

Lemma find_column_elem (headers names : list text) (h : text) :
  find_column headers names = Some h -> h ∈ headers.
Proof.
  induction names as [|n names IH]; simpl; [done|].
  destruct (header_named headers n) eqn:E; [|done].
  intros [= <-]. by apply header_named_elem in E.
Qed.

(** The ways [detect_columns] ends. *)
Lemma detect_columns_cases (headers : list text) :
  (exists role, detect_columns headers = Raise (not_found role headers)) \/
  (exists m, detect_columns headers = Ok m /\
     date m ∈ headers /\ description m ∈ headers /\
     ((exists a, amount m = Some a /\ amount_columns m = None /\ a ∈ headers) \/
      (exists c cols, amount m = None /\ amount_columns m = Some (c :: cols) /\
         Forall (fun col => col ∈ headers) (c :: cols)))).
Proof.
  unfold detect_columns.
  destruct (find_column headers DATE_COLUMNS) as [dc|] eqn:D; [|left; by eexists].
  destruct (find_column headers DESCRIPTION_COLUMNS) as [sc|] eqn:S;
    [|left; by eexists].
  apply find_column_elem in D, S.
  assert (Forall (fun col => col ∈ headers)
            (omap (header_named headers) AMOUNT_COLUMNS)) as Ha.
  { apply Forall_forall. intros col (n & _ & Hn)%list_elem_of_omap.
    by apply header_named_elem in Hn. }
  destruct (omap (header_named headers) AMOUNT_COLUMNS) as [|a [|b cols]].
  - left. by eexists.
  - right. eexists. split; [done|]. simpl. repeat split; [done..|].
    left. exists a. inversion Ha; subst. done.
  - right. eexists. split; [done|]. simpl. repeat split; [done..|].
    right. by exists a, (b :: cols).
Qed.


Section Rows.

Variable datetime : Type.
Variable dateutil_parse : text -> option datetime.
Variable strptime : text -> text -> option datetime.

Local Abbreviation parse_row := (_parse_row datetime dateutil_parse strptime).
Local Abbreviation detect_date := (detect_date_format datetime dateutil_parse strptime).

Lemma first_amount_complete (fieldnames row cols : list text) :
  complete fieldnames row -> Forall (fun col => col ∈ fieldnames) cols ->
  exists found, first_amount (dict_row fieldnames row) cols = Ok found.
Proof.
  intros Hc. induction 1 as [|col cols Hcol _ IH]; simpl; [by eexists|].
  destruct (dict_row_complete _ _ _ Hc Hcol) as (x & ->). simpl.
  destruct (strip x); [done|by eexists].
Qed.

(** On a complete row the three cells are text. *)
Lemma cells_complete (fieldnames row : list text) (m : column_mapping) :
  complete fieldnames row -> detect_columns fieldnames = Ok m ->
  exists ds desc am,
    getitem (dict_row fieldnames row) (date m) = Ok (CStr ds) /\
    getitem (dict_row fieldnames row) (description m) = Ok (CStr desc) /\
    amount_cell (dict_row fieldnames row) m = Ok (CStr am).
Proof.
  intros Hc Hm.
  destruct (detect_columns_cases fieldnames) as [[role E]|(m' & E & Hd & Hs & Ha)];
    rewrite Hm in E; [done|]. injection E as <-.
  destruct (dict_row_complete _ _ _ Hc Hd) as (ds & Eds).
  destruct (dict_row_complete _ _ _ Hc Hs) as (desc & Edesc).
  exists ds, desc. unfold getitem, amount_cell. rewrite Eds, Edesc.
  destruct Ha as [(a & -> & -> & Ha)|(c & cols & -> & -> & Ha)].
  - destruct (dict_row_complete _ _ _ Hc Ha) as (am & Eam).
    simpl. unfold getitem. rewrite Eam. by exists am.
  - destruct (first_amount_complete _ _ _ Hc Ha) as (found & Ef).
    simpl in *. rewrite Ef. by eexists.
Qed.

(** [_parse_row] once the three cells are read. *)
Lemma parse_row_cells (row : gmap text cell) (m : column_mapping)
  (ds desc am : text) :
  getitem row (date m) = Ok (CStr ds) ->
  getitem row (description m) = Ok (CStr desc) ->
  amount_cell row m = Ok (CStr am) ->
  parse_row row m =
  if is_empty ds && is_empty desc && is_empty am then Ok None
  else match detect_date (CStr ds) with
       | Raise e => Raise e
       | Ok d =>
         match parse_amount (CStr am) with
         | Raise e => Raise e
         | Ok a => Ok (Some {| rec_date := d; rec_description := strip desc;
                               rec_amount := a |})
         end
       end.
Proof.
  intros Hd Hs Ha. unfold _parse_row. rewrite Hd, Hs, Ha. simpl.
  destruct ds, desc, am; simpl; try done;
    destruct (detect_date _); simpl; try done;
    destruct (parse_amount _); done.
Qed.


(** A complete row yields a record, is passed over, or fails on its date or
    on its amount. *)
Lemma parse_row_complete (fieldnames row : list text) (m : column_mapping) :
  complete fieldnames row -> detect_columns fieldnames = Ok m ->
  exists ds am,
    getitem (dict_row fieldnames row) (date m) = Ok (CStr ds) /\
    amount_cell (dict_row fieldnames row) m = Ok (CStr am) /\
    ((exists t, parse_row (dict_row fieldnames row) m = Ok t) \/
     parse_row (dict_row fieldnames row) m =
       Raise (ValueError (str "Could not parse date: " ++ ds)) \/
     parse_row (dict_row fieldnames row) m =
       Raise (ValueError (str "Could not parse amount: " ++ am))).
Proof.
  intros Hc Hm. destruct (cells_complete _ _ _ Hc Hm) as (ds & desc & am & Hd & Hs & Ha).
  exists ds, am. split; [done|]. split; [done|].
  rewrite (parse_row_cells _ _ _ _ _ Hd Hs Ha).
  destruct (_ && _); [left; by eexists|].
  unfold detect_date_format. destruct (dateutil_parse ds).
  2: destruct (try_formats _ _ _ _); [|by right; left].
  all: rewrite parse_amount_text; destruct (blank_or_null am);
    [left; by eexists|];
    destruct (py_float _); [left; by eexists|by right; right].
Qed.


(** Only the reader raises [csv.Error]: no row does. *)
Lemma first_amount_raises (row : gmap text cell) (cols : list text) (e : exn) :
  first_amount row cols = Raise e -> e = no_strip.
Proof.
  induction cols as [|col cols IH]; [done|]. cbn [first_amount].
  destruct (default (CStr []) (row !! col)) as [|s|x]; cbn;
    try by intros [= <-].
  destruct (strip s); [exact IH|done].
Qed.

Lemma parse_amount_raises (v : cell) (e : exn) :
  parse_amount v = Raise e -> exists msg, e = ValueError msg.
Proof.
  destruct v as [|s|x]; [by vm_compute| |done].
  rewrite parse_amount_text. destruct (blank_or_null s); [done|].
  destruct (py_float _); [done|]. intros [= <-]. by eexists.
Qed.

Lemma parse_row_not_csv (row : gmap text cell) (m : column_mapping)
  (msg : text) :
  parse_row row m <> Raise (CsvError msg).
Proof.
  unfold _parse_row, getitem.
  destruct (row !! date m) as [ds|]; [|done].
  destruct (row !! description m) as [desc|]; [|done]. cbn.
  destruct (amount_cell row m) as [v|e] eqn:Ha; cbn.
  2: { intros [= ->]. unfold amount_cell, getitem in Ha.
       destruct (amount_columns m) as [[|c cols]|].
       2: { destruct (first_amount row (c :: cols)) as [f|e] eqn:Hf; [done|].
            cbn in Ha. injection Ha as ->.
            by apply first_amount_raises in Hf. }
       all: destruct (amount m) as [col|]; [|done];
         by destruct (row !! col). }
  destruct (_ && _); [done|].
  destruct (detect_date_format _ _ _ ds) as [d|e] eqn:Hd; cbn.
  2: { intros [= ->]. unfold detect_date_format in Hd.
       destruct ds as [|s|x]; try done.
       destruct (dateutil_parse s); [done|].
       by destruct (try_formats _ _ _ _). }
  destruct desc as [|s|x]; try done. cbn.
  destruct (parse_amount v) as [a|e] eqn:Hv; cbn; [done|].
  intros [= ->]. by apply parse_amount_raises in Hv as [? ?].
Qed.

(** The loop of [parse_csv], when no row raises [AttributeError]: rows are
    handled one by one, each adding its record or its error entry, whatever
    happened to the rows before it. *)
Lemma parse_rows_spec (fieldnames : list text) (m : column_mapping)
  (rows : list (list text)) (txns : list (record datetime))
  (errs : list text) (n : nat) :
  Forall (fun row => forall msg,
            parse_row (dict_row fieldnames row) m <> Raise (AttributeError msg))
         (data_rows rows) ->
  parse_rows datetime dateutil_parse strptime fieldnames m (txns, errs, n) rows =
  Ok (txns ++ omap (row_record datetime dateutil_parse strptime fieldnames m)
                   (data_rows rows),
      errs ++ omap (row_error datetime dateutil_parse strptime fieldnames m)
                   (zip (seq (S n) (length (data_rows rows))) (data_rows rows)),
      (n + length (data_rows rows))%nat).
Proof.
  revert txns errs n. induction rows as [|row rows IH]; intros txns errs n H.
  - simpl. by rewrite !app_nil_r, Nat.add_0_r.
  - destruct row as [|c row]; [by apply IH|].
    change (data_rows ((c :: row) :: rows)) with ((c :: row) :: data_rows rows)
      in *.
    inversion H as [|? ? Hrow Hrest]; subst. cbn [parse_rows parse_step].
    cbn [length seq zip zip_with omap list_omap].
    unfold row_record at 1, row_error at 1. cbn [fst snd].
    pose proof (parse_row_not_csv (dict_row fieldnames (c :: row)) m) as Hcsv.
    destruct (parse_row (dict_row fieldnames (c :: row)) m)
      as [[t|]|[msg|msg|msg|msg]].
    + cbn. rewrite (IH _ _ _ Hrest). f_equal. f_equal; [f_equal|lia].
      by rewrite <- app_assoc.
    + cbn. rewrite (IH _ _ _ Hrest). f_equal. f_equal. lia.
    + cbn. rewrite (IH _ _ _ Hrest). f_equal. f_equal; [f_equal|lia].
      by rewrite <- app_assoc.
    + cbn. rewrite (IH _ _ _ Hrest). f_equal. f_equal; [f_equal|lia].
      by rewrite <- app_assoc.
    + by destruct (Hrow msg).
    + by destruct (Hcsv msg).
Qed.

(** The loop of [parse_csv] lets only [AttributeError] through. *)
Lemma parse_rows_raises (fieldnames : list text) (m : column_mapping)
  (rows : list (list text)) (st : loop_state datetime) (e : exn) :
  parse_rows datetime dateutil_parse strptime fieldnames m st rows = Raise e ->
  exists msg, e = AttributeError msg.
Proof.
  revert st. induction rows as [|row rows IH]; intros st; [done|].
  cbn [parse_rows]. destruct st as [[txns errs] n].
  destruct row as [|c row]; [apply IH|]. cbn [parse_step].
  pose proof (parse_row_not_csv (dict_row fieldnames (c :: row)) m) as Hcsv.
  destruct (parse_row (dict_row fieldnames (c :: row)) m)
    as [[t|]|[msg|msg|msg|msg]]; cbn; try apply IH.
  - intros [= <-]. by exists msg.
  - by destruct (Hcsv msg).
Qed.

(** Complete rows raise no [AttributeError]. *)
Lemma complete_rows_strip (fieldnames : list text) (m : column_mapping)
  (rows : list (list text)) :
  detect_columns fieldnames = Ok m ->
  Forall (complete fieldnames) rows ->
  Forall (fun row => forall msg,
            parse_row (dict_row fieldnames row) m <> Raise (AttributeError msg))
         rows.
Proof.
  intros Hm Hc. eapply Forall_impl; [exact Hc|]. intros row Hrow msg.
  destruct (parse_row_complete _ _ _ Hrow Hm)
    as (ds & am & _ & _ & [[t ->]|[->| ->]]); done.
Qed.

End Rows.


Section Files.

Variable datetime : Type.
Variable dateutil_parse : text -> option datetime.
Variable strptime : text -> text -> option datetime.

Local Abbreviation parse_row := (_parse_row datetime dateutil_parse strptime).
Local Abbreviation parse := (parse_csv datetime dateutil_parse strptime).




End Files.





End CsvFacts.

(** ** More on the categorization engine *)

Module EngineFacts.
Import PyFacts CategorizationFacts.

(** *** More on learning *)

Lemma find_one_first_max (q : rule -> bool) (db : list rule) i r :
  first_max q natural db i r -> find_one q db = Some (i, r).
Proof.
  intros H. destruct (find_one q db) as [[j r']|] eqn:F.
  - apply find_one_Some in F.
    by destruct (first_max_unique _ _ _ _ _ _ _ H F) as [<- <-].
  - apply find_one_None in F. by destruct (no_match_first_max _ _ _ _ _ F H).
Qed.

Lemma first_max_alter (f : rule -> rule) q key db i r :
  (forall x, q (f x) = q x) -> (forall x, key x <= key (f x)) ->
  first_max q key db i r -> first_max q key (alter f i db) i (f r).
Proof.
  intros Eq Ek (Hi & Qi & Mi).
  split; [by rewrite list_lookup_alter_eq, Hi|]. split; [by rewrite Eq|].
  intros j r' Hj Qj. destruct (decide (i = j)) as [<-|Hne].
  - rewrite list_lookup_alter_eq, Hi in Hj. injection Hj as <-. right. done.
  - rewrite list_lookup_alter_ne in Hj by done.
    specialize (Mi _ _ Hj Qj). specialize (Ek r). lia.
Qed.

Lemma first_max_appended q db (r : rule) :
  no_match q db -> q r = true -> first_max q natural (db ++ [r]) (length db) r.
Proof.
  intros N Q. split; [by rewrite lookup_app_r, Nat.sub_diag by lia|].
  split; [done|]. intros j r' Hj Qj. right. split; [done|].
  destruct (decide (j < length db)%nat) as [Hlt|]; [|lia].
  rewrite lookup_app_l in Hj by done. by rewrite (N _ _ Hj) in Qj.
Qed.

(** After [learn_from_categorization], the rule [find_one] returns for the
    pattern carries the category. *)
Lemma learn_then_find now d c db :
  exists i r,
    find_one (has_pattern (merchant_pattern d) contains_)
      (snd (learn_from_categorization now d c db)) = Some (i, r) /\
    category_id r = c.
Proof.
  pose proof (learn_db now d c db) as L. cbv zeta in L.
  destruct (find_one _ db) as [[i r]|].
  - destruct L as [H ->]. destruct (Z.eqb_spec (category_id r) c) as [E|NE].
    + exists i, r. split; [by apply find_one_first_max|done].
    + exists i, (recategorize now c r). split; [|done].
      apply find_one_first_max. apply first_max_alter; [done|done|done].
  - destruct L as [N ->].
    exists (length db), (mk_rule (merchant_pattern d) c contains_ now now 1).
    split; [|done].
    apply find_one_first_max. apply first_max_appended; [done|].
    by apply has_pattern_spec.
Qed.

(** X1.  Learning the same correction a second time changes nothing: no rule is
    added and no counter moves. *)
Theorem learn_twice_same (now1 now2 : Z) (d : text) (c : Z) (db : list rule) :
  snd (learn_from_categorization now2 d c
         (snd (learn_from_categorization now1 d c db))) =
  snd (learn_from_categorization now1 d c db).
Proof.
  destruct (learn_then_find now1 d c db) as (i & r & F & C).
  set (db1 := snd (learn_from_categorization now1 d c db)) in *.
  pose proof (learn_db now2 d c db1) as L. cbv zeta in L. rewrite F in L.
  destruct L as [_ ->]. by rewrite C, Z.eqb_refl.
Qed.


(** X2.  Learning a second category for the same description replaces the
    first: the rule for the pattern then carries the second category, and
    no rule is added. *)
Theorem learn_last_wins (now1 now2 : Z) (d : text) (c1 c2 : Z) (db : list rule) :
  let db1 := snd (learn_from_categorization now1 d c1 db) in
  let db2 := snd (learn_from_categorization now2 d c2 db1) in
  length db2 = length db1 /\
  exists i r, find_one (has_pattern (merchant_pattern d) contains_) db2
              = Some (i, r) /\ category_id r = c2.
Proof.
  intros db1 db2. split; [|apply learn_then_find].
  destruct (learn_then_find now1 d c1 db) as (i & r & F & C). fold db1 in F.
  pose proof (learn_db now2 d c2 db1) as L. cbv zeta in L. rewrite F in L.
  destruct L as [_ E]. fold db2 in E. rewrite E.
  destruct (_ =? _); [done|]. apply length_alter.
Qed.

(** *** Invariants of the rule collection *)

Lemma one_rule_per_pattern_alter (f : rule -> rule) i db :
  (forall x, pattern (f x) = pattern x) ->
  (forall x, rule_match_type (f x) = rule_match_type x) ->
  one_rule_per_pattern db -> one_rule_per_pattern (alter f i db).
Proof.
  intros Ep Et U.
  assert (forall j r, alter f i db !! j = Some r ->
            exists r1, db !! j = Some r1 /\ pattern r1 = pattern r /\
                       rule_match_type r1 = rule_match_type r) as Hback.
  { intros j r Hj. destruct (decide (i = j)) as [<-|Hne].
    - rewrite list_lookup_alter_eq in Hj.
      destruct (db !! i) as [r1|]; [|done]. injection Hj as <-.
      exists r1. by rewrite Ep, Et.
    - rewrite list_lookup_alter_ne in Hj by done. eauto. }
  intros j k r r' Hj Hk Tj Tk E.
  destruct (Hback _ _ Hj) as (r1 & Hj1 & P1 & T1).
  destruct (Hback _ _ Hk) as (r2 & Hk2 & P2 & T2).
  apply (U j k r1 r2); congruence.
Qed.

Section Invariants.

Variable fuzz_ratio : text -> text -> Z.

(** X3.  Whatever is classified and learned, in whatever order, the collection
    keeps at most one contains rule per pattern.  It does so from the empty
    collection in particular. *)
Theorem run_one_rule_per_pattern (calls : list call) (db : list rule) :
  one_rule_per_pattern db -> one_rule_per_pattern (run fuzz_ratio calls db).
Proof.
  unfold run. revert db. induction calls as [|o calls IH]; intros db U; [done|].
  simpl. apply IH. destruct o as [now d|now d c]; simpl.
  - destruct (categorize_outcome fuzz_ratio now d db)
      as [(i & r & _ & _ & ->)|[_ ->]]; [|done].
    by apply one_rule_per_pattern_alter.
  - by apply learn_one_rule_per_pattern.
Qed.

(** X4.  What [categorize] writes.  A call that returns none leaves the
    collection as it was.  A call that hits records the use of one rule, the
    one whose category it returns and whose match type names the tier: that
    rule gets [use_count + 1] and [last_used = now]; every other rule, and
    every other field, is unchanged. *)
Theorem categorize_effect (now : Z) (d : text) (db : list rule) :
  let res := fst (categorize fuzz_ratio now d db) in
  let db' := snd (categorize fuzz_ratio now d db) in
  length db' = length db /\
  (res_match_type res = none -> db' = db) /\
  (res_match_type res <> none ->
   exists i r, db !! i = Some r /\
     res_category_id res = category_id r /\
     res_match_type res = rule_match_type r /\
     db' !! i = Some (touch now r) /\
     forall j, j <> i -> db' !! j = db !! j).
Proof.
  cbv zeta.
  destruct (categorize_tiers fuzz_ratio now d db) as (E & K & F & _).
  destruct (categorize_outcome fuzz_ratio now d db)
    as [(i & r & Hi & Hc & Hs)|[Hr Hs]].
  - set (res := fst (categorize fuzz_ratio now d db)) in *.
    assert (res_category_id res = category_id r /\
            res_match_type res = rule_match_type r) as [Ec Et].
    { destruct Hc as [H|[NE [H|(NC & H & Hsc)]]].
      - rewrite (E _ _ H). destruct H as (_ & [_ T]%has_pattern_spec & _). done.
      - rewrite (K NE _ _ H). destruct H as (_ & [T _]%contains_query_spec & _).
        done.
      - rewrite (F NE NC _ _ H Hsc). destruct H as (_ & T%is_type_spec & _).
        done. }
    rewrite Hs. unfold _update_rule_usage.
    split; [apply length_alter|]. split.
    + intros Hn. rewrite Et in Hn.
      destruct Hc as [H|[NE [H|(NC & H & Hsc)]]].
      * destruct H as (_ & [_ T]%has_pattern_spec & _). congruence.
      * destruct H as (_ & [T _]%contains_query_spec & _). congruence.
      * destruct H as (_ & T%is_type_spec & _). congruence.
    + intros _. exists i, r. repeat split; [done..| |].
      * by rewrite list_lookup_alter_eq, Hi.
      * intros j Hne. by rewrite list_lookup_alter_ne.
  - rewrite Hs. split; [done|]. split; [done|]. by rewrite Hr.
Qed.

End Invariants.

(** *** More on batch propagation *)

Lemma update_many_count (q : transaction -> bool) ids c k db :
  (forall i t, db !! i = Some t -> existsb (Nat.eqb (k + i)) ids = q t) ->
  (forall t, q t = true -> is_assigned c t = false) ->
  snd (update_many ids c k db) = length (List.filter q db).
Proof.
  revert k. induction db as [|t db IH]; intros k Hids Hq; [done|].
  cbn [update_many List.filter].
  specialize (IH (S k)). destruct (update_many ids c (S k) db) as [db' n].
  simpl in IH.
  assert (n = length (List.filter q db)) as ->.
  { apply IH; [|done]. intros i t0 Hi. specialize (Hids (S i) t0 Hi).
    rewrite Nat.add_succ_r in Hids. exact Hids. }
  pose proof (Hids O t eq_refl) as H0. rewrite Nat.add_0_r in H0. rewrite H0.
  destruct (q t) eqn:Q; [|done]. simpl. by rewrite (Hq t Q).
Qed.

(** X5.  For a category other than 0, the count [batch_categorize_similar]
    returns is the number of uncategorized transactions whose description
    holds the merchant pattern: each of them is changed. *)
Theorem batch_count_matching (d : text) (c : Z) (db : list transaction) :
  c <> 0 ->
  fst (batch_categorize_similar d c db) =
  length (List.filter (uncategorized_like (merchant_pattern d)) db).
Proof.
  intros Hc. unfold batch_categorize_similar.
  fold (normalize d). fold (merchant_pattern d).
  set (q := uncategorized_like (merchant_pattern d)).
  assert (forall t, q t = true -> is_assigned c t = false) as Hq.
  { intros t [Q0%Z.eqb_eq _]%andb_true_iff. unfold is_assigned.
    destruct (Z.eqb_spec (txn_category_id t) c); [congruence|done]. }
  pose proof (update_many_count q (map fst (find q db)) c O db
                (fun i t Hi => existsb_ids q db i t Hi) Hq) as U.
  destruct (map fst (find q db)) as [|a ids] eqn:Ids.
  - simpl. symmetry. apply length_zero_iff_nil.
    destruct (List.filter q db) as [|t l] eqn:Fl; [done|].
    assert (In t (List.filter q db)) as [Hin Q]%filter_In by (rewrite Fl; by left).
    apply list_elem_of_In, list_elem_of_lookup in Hin as [i Hi].
    pose proof (existsb_ids q db i t Hi) as Ex. rewrite Ids, Q in Ex. done.
  - destruct (update_many (a :: ids) c O db) as [db' n]. simpl in *. done.
Qed.

(** *** Words *)

Lemma split_words (s : text) : Forall word (split s).
Proof.
  induction s as [|c t IH]; [constructor|]. cbn [split].
  destruct (is_space c) eqn:Sc; [done|].
  destruct t as [|d t']; [repeat constructor; by auto|].
  destruct (is_space d) eqn:Sd.
  - constructor; [|done]. split; [done|]. by repeat constructor.
  - destruct (split (d :: t')) as [|w ws]; [repeat constructor; by auto|].
    inversion IH as [|? ? [Hw1 Hw2] Hws]; subst.
    constructor; [|done]. split; [done|]. by constructor.
Qed.

Lemma split_word_then (w rest : text) :
  word w -> split (w ++ space :: rest) = w :: split rest.
Proof.
  intros [Hne Hw]. induction Hw as [|c w Hc Hw IH]; [done|].
  cbn [app split]. rewrite Hc. destruct w as [|c' w']; cbn [app].
  - reflexivity.
  - inversion Hw; subst. rewrite H1.
    assert (c' :: w' <> []) as Hne' by done. specialize (IH Hne').
    cbn [app] in IH. by rewrite IH.
Qed.

Lemma split_one_word (w : text) : word w -> split w = [w].
Proof.
  intros [Hne Hw]. induction Hw as [|c w Hc Hw IH]; [done|].
  cbn [split]. rewrite Hc. destruct w as [|c' w']; [done|].
  inversion Hw; subst. rewrite H1.
  assert (c' :: w' <> []) as Hne' by done. by rewrite (IH Hne').
Qed.

Lemma split_join (ws : list text) :
  Forall word ws -> split (join [space] ws) = ws.
Proof.
  induction 1 as [|w ws Hw Hws IH]; [done|]. cbn [join].
  destruct ws as [|w' ws']; [by apply split_one_word|].
  cbn [app]. rewrite split_word_then by done. by rewrite IH.
Qed.

(** A text that begins and ends with a character that is not a space is
    its own [strip]. *)
Lemma lstrip_head (c : ascii) (s : text) :
  is_space c = false -> lstrip (c :: s) = c :: s.
Proof. intros H. simpl. by rewrite H. Qed.

Lemma strip_bounded (c c' : ascii) (s : text) :
  is_space c = false -> is_space c' = false ->
  strip (c :: s ++ [c']) = c :: s ++ [c'] /\ strip [c] = [c].
Proof.
  intros Hc Hc'. unfold strip, rstrip. split.
  - rewrite (lstrip_head c) by done.
    change (c :: s ++ [c']) with ((c :: s) ++ [c']).
    rewrite rev_app_distr. cbn [rev app]. rewrite (lstrip_head c') by done.
    change (c' :: rev s ++ [c]) with ([c'] ++ rev (c :: s)).
    by rewrite rev_app_distr, rev_involutive.
  - rewrite (lstrip_head c) by done. simpl. by rewrite Hc.
Qed.

(** The ends of a text joined from words. *)
Lemma join_words_ends (ws : list text) :
  Forall word ws ->
  join [space] ws = [] \/
  (exists c, join [space] ws = [c] /\ is_space c = false) \/
  (exists c s c', join [space] ws = c :: s ++ [c'] /\
     is_space c = false /\ is_space c' = false).
Proof.
  assert (forall w, word w ->
            (exists c, w = [c] /\ is_space c = false) \/
            (exists c s c', w = c :: s ++ [c'] /\
               is_space c = false /\ is_space c' = false)) as Hword.
  { intros w [Hne Hw]. destruct w as [|c w]; [done|].
    inversion Hw as [|? ? Hc Hw']; subst.
    destruct w as [|x w] using rev_ind; [left; by exists c|].
    right. exists c, w, x. split; [done|]. split; [done|].
    apply Forall_app in Hw' as [_ Hx]. by inversion Hx. }
  induction 1 as [|w ws Hw Hws IH]; [by left|]. right. cbn [join].
  destruct ws as [|w' ws']; [by apply Hword|].
  assert (join [space] (w' :: ws') <> []) as Hne.
  { inversion Hws as [|? ? [Hne _] _]; subst. cbn [join].
    destruct ws'; [done|]. by destruct w'. }
  right. destruct (Hword w Hw) as [(c & -> & Hc)|(c & s & c' & -> & Hc & Hc')];
    destruct IH as [E|[(d & E & Hd)|(d & t & d' & E & Hd & Hd')]];
    try done; rewrite E.
  - exists c, [space], d. done.
  - exists c, (space :: d :: t), d'. done.
  - exists c, (s ++ [c'; space]), d.
    split; [|done]. cbn. by rewrite <- !app_assoc.
  - exists c, (s ++ c' :: space :: d :: t), d'.
    split; [|done]. cbn. by rewrite <- !app_assoc.
Qed.

Lemma strip_join_words (ws : list text) :
  Forall word ws -> strip (join [space] ws) = join [space] ws.
Proof.
  intros H.
  destruct (join_words_ends ws H)
    as [->|[(c & -> & Hc)|(c & s & c' & -> & Hc & Hc')]]; [done| |].
  - by apply (strip_bounded c c []).
  - by apply strip_bounded.
Qed.


(** [_extract_merchant_pattern] in one line: the first four words of what
    the three substitutions leave, joined by single spaces. *)
Lemma extract_words (s : text) :
  _extract_merchant_pattern s =
  join [space]
    (take 4 (split (sub_trailing_number (sub_date 0 (sub_store_number false s))))).
Proof.
  unfold _extract_merchant_pattern.
  set (x := sub_trailing_number (sub_date 0 (sub_store_number false s))).
  rewrite (split_join (split x)) by apply split_words.
  destruct (Nat.ltb_spec 4 (length (split x))) as [Hlt|Hge].
  - apply strip_join_words, Forall_take, split_words.
  - rewrite take_ge by lia. apply strip_join_words, split_words.
Qed.

Lemma merchant_pattern_trimmed (d : text) :
  strip (merchant_pattern d) = merchant_pattern d.
Proof.
  unfold merchant_pattern. rewrite extract_words.
  apply strip_join_words, Forall_take, split_words.
Qed.

(** X6.  The pattern [learn_from_categorization] stores, and
    [batch_categorize_similar] searches for, has at most four words, separated
    by single spaces, without space at either end, and is in upper case. *)
Theorem merchant_pattern_shape (d : text) :
  let p := merchant_pattern d in
  (length (split p) <= 4)%nat /\
  join [space] (split p) = p /\
  strip p = p /\
  upper p = p.
Proof.
  intros p. subst p. split; [|split; [|split]]; [| | |apply merchant_pattern_upper].
  all: unfold merchant_pattern; rewrite extract_words;
    set (ws := take 4 _);
    assert (Forall word ws) as Hws by apply Forall_take, split_words.
  - rewrite split_join by done. unfold ws. rewrite length_take. lia.
  - by rewrite split_join.
  - by apply strip_join_words.
Qed.

(** *** Letter case and trimming *)

Lemma lower_upper_char (c : ascii) : lower_char (upper_char c) = lower_char c.
Proof. destruct c as [[] [] [] [] [] [] [] []]; reflexivity. Qed.

Lemma upper_lower_char (c : ascii) : upper_char (lower_char c) = upper_char c.
Proof. destruct c as [[] [] [] [] [] [] [] []]; reflexivity. Qed.

Lemma is_space_upper (c : ascii) : is_space (upper_char c) = is_space c.
Proof. destruct c as [[] [] [] [] [] [] [] []]; reflexivity. Qed.

Lemma same_letters (s p : text) : lower s = lower p <-> upper s = upper p.
Proof.
  unfold lower, upper. split; intros H.
  - rewrite <- (map_ext _ _ upper_lower_char s), <- (map_ext _ _ upper_lower_char p).
    rewrite <- !(map_map lower_char upper_char). by rewrite H.
  - rewrite <- (map_ext _ _ lower_upper_char s), <- (map_ext _ _ lower_upper_char p).
    rewrite <- !(map_map upper_char lower_char). by rewrite H.
Qed.

Lemma contains_map (f g : ascii -> ascii) (s p : text) :
  (forall x y : text, map f x = map f y -> map g x = map g y) ->
  Py.contains (map f s) (map f p) = true ->
  Py.contains (map g s) (map g p) = true.
Proof.
  intros Hfg (pre & suf & H)%contains_spec. apply contains_spec.
  apply map_eq_app in H as (s1 & s23 & -> & <- & H).
  apply map_eq_app in H as (s2 & s3 & -> & H2 & <-).
  exists (map g s1), (map g s3). rewrite !map_app. by rewrite (Hfg _ _ H2).
Qed.

(** Matching without regard to case is matching in upper case. *)
Lemma contains_any_case (s p : text) :
  Py.contains (lower s) (lower p) = Py.contains (upper s) (upper p).
Proof.
  apply eq_true_iff_eq. split.
  - apply contains_map. intros x y. apply same_letters.
  - apply contains_map. intros x y. apply same_letters.
Qed.

Lemma lstrip_upper (s : text) : lstrip (upper s) = upper (lstrip s).
Proof.
  induction s as [|c s IH]; [done|]. cbn [upper map lstrip].
  rewrite is_space_upper. by destruct (is_space c).
Qed.

Lemma rev_upper (s : text) : rev (upper s) = upper (rev s).
Proof. unfold upper. by rewrite map_rev. Qed.

Lemma strip_upper (s : text) : strip (upper s) = upper (strip s).
Proof.
  unfold strip, rstrip.
  by rewrite lstrip_upper, rev_upper, lstrip_upper, rev_upper.
Qed.

Lemma lstrip_suffix (s : text) : exists a, s = a ++ lstrip s.
Proof.
  induction s as [|c s [a IH]]; [by exists []|]. simpl.
  destruct (is_space c); [|by exists []].
  exists (c :: a). simpl. by rewrite <- IH.
Qed.

Lemma strip_infix (s : text) : exists a b, s = a ++ strip s ++ b.
Proof.
  unfold strip, rstrip. destruct (lstrip_suffix s) as [a Ha].
  destruct (lstrip_suffix (rev (lstrip s))) as [b Hb].
  exists a, (rev b). rewrite <- rev_app_distr, <- Hb, rev_involutive. done.
Qed.

Lemma lstrip_keeps (pre rest : text) (c : ascii) :
  is_space c = false ->
  exists pre', lstrip (pre ++ c :: rest) = pre' ++ c :: rest.
Proof.
  intros Hc. induction pre as [|x pre [pre' IH]]; simpl.
  - rewrite Hc. by exists [].
  - destruct (is_space x); [by exists pre'|by exists (x :: pre)].
Qed.

Lemma lstrip_fixed (s : text) :
  lstrip s = s -> s = [] \/ exists c t, s = c :: t /\ is_space c = false.
Proof.
  destruct s as [|c t]; [by left|]. simpl. destruct (is_space c) eqn:E.
  - intros H. destruct (lstrip_suffix t) as [a Ha].
    assert (length (lstrip t) = S (length t)) as Hl by (by rewrite H).
    rewrite Ha in Hl at 2. rewrite length_app in Hl. lia.
  - right. by exists c, t.
Qed.

Lemma lstrip_shorter (s : text) : (length (lstrip s) <= length s)%nat.
Proof.
  destruct (lstrip_suffix s) as [a Ha]. rewrite Ha at 2. rewrite length_app. lia.
Qed.

Lemma lstrip_same_length (s : text) : length (lstrip s) = length s -> lstrip s = s.
Proof.
  intros H. destruct (lstrip_suffix s) as [a Ha].
  rewrite Ha in H at 2. rewrite length_app in H.
  destruct a; [done|simpl in H; lia].
Qed.

(** A text that is its own [strip] begins and ends with a character that is
    not a space. *)
Lemma strip_fixed (q : text) :
  strip q = q -> lstrip q = q /\ lstrip (rev q) = rev q.
Proof.
  intros H. unfold strip, rstrip in H.
  assert (length (lstrip (rev (lstrip q))) = length q) as Hl.
  { rewrite <- (length_rev (lstrip _)). by rewrite H. }
  pose proof (lstrip_shorter (rev (lstrip q))) as H1.
  pose proof (lstrip_shorter q) as H2. rewrite length_rev in H1.
  assert (lstrip q = q) as E by (apply lstrip_same_length; lia).
  split; [done|]. rewrite E in Hl. apply lstrip_same_length.
  by rewrite length_rev.
Qed.

(** An occurrence of a trimmed text lies inside the trimmed description. *)
Lemma contains_strip (s q : text) :
  strip q = q -> Py.contains (strip s) q = Py.contains s q.
Proof.
  intros Hq. apply eq_true_iff_eq. rewrite !contains_spec. split.
  - intros (pre & suf & H). destruct (strip_infix s) as (a & b & Hs).
    exists (a ++ pre), (suf ++ b). rewrite Hs, H. by rewrite <- !app_assoc.
  - intros (pre & suf & ->).
    destruct (strip_fixed q Hq) as [Hl Hr].
    destruct (lstrip_fixed q Hl) as [->|(c & t & -> & Hc)].
    { exists [], (strip (pre ++ suf)). done. }
    destruct (lstrip_fixed (rev (c :: t)) Hr) as [E|(c' & t' & Hrev & Hc')].
    { by apply (f_equal (@length _)) in E; rewrite length_rev in E. }
    unfold strip, rstrip.
    destruct (lstrip_keeps pre (t ++ suf) c Hc) as [pre' Hpre].
    change (pre ++ (c :: t) ++ suf) with (pre ++ c :: (t ++ suf)).
    rewrite Hpre.
    change (pre' ++ c :: t ++ suf) with (pre' ++ (c :: t) ++ suf).
    rewrite !rev_app_distr, Hrev, <- app_assoc.
    destruct (lstrip_keeps (rev suf) (t' ++ rev pre') c' Hc') as [suf' Hsuf].
    change ((c' :: t') ++ rev pre') with (c' :: (t' ++ rev pre')).
    rewrite Hsuf.
    exists pre', (rev suf').
    change (suf' ++ c' :: t' ++ rev pre') with (suf' ++ (c' :: t') ++ rev pre').
    rewrite <- Hrev, !rev_app_distr, !rev_involutive. by rewrite <- app_assoc.
Qed.


(** X7.  Propagation and classification agree.  An uncategorized transaction is
    relabelled by [batch_categorize_similar] exactly when the contains tier,
    scanning the rule learned from the same description, finds that rule's
    pattern in the transaction's normalized description. *)
Theorem propagation_agrees_with_rule (d : text) (t : transaction) :
  txn_category_id t = 0 ->
  uncategorized_like (merchant_pattern d) t =
  Py.contains (normalize (txn_description t)) (upper (merchant_pattern d)).
Proof.
  intros H0. unfold uncategorized_like. rewrite H0. simpl.
  pose proof (merchant_pattern_upper d) as Hu.
  rewrite contains_any_case. unfold normalize.
  rewrite <- strip_upper. rewrite contains_strip; [done|].
  rewrite Hu. apply merchant_pattern_trimmed.
Qed.

(** An instance: a transaction "Costco Wholesale #456 Montreal" and the
    description "COSTCO WHOLESALE #123". *)
Lemma propagation_agrees_costco :
  uncategorized_like (merchant_pattern (str "COSTCO WHOLESALE #123"))
    (mk_transaction 0 (str " Costco Wholesale #456 Montreal") f0_0 0 [] false f0_0)
  = Py.contains (normalize (str " Costco Wholesale #456 Montreal"))
      (upper (merchant_pattern (str "COSTCO WHOLESALE #123"))).
Proof.
  apply (propagation_agrees_with_rule (str "COSTCO WHOLESALE #123")
           (mk_transaction 0 (str " Costco Wholesale #456 Montreal") f0_0 0 []
              false f0_0)).
  reflexivity.
Defined.

(** An instance: a run of four calls from the empty collection. *)
Lemma run_one_rule_per_pattern_from_empty :
  one_rule_per_pattern
    (run (fun _ _ => 0)
       [Learn 1 (str "COSTCO WHOLESALE #123") 1;
        Categorize 2 (str "COSTCO WHOLESALE #456 MONTREAL");
        Learn 3 (str "COSTCO WHOLESALE #9") 2;
        Learn 4 (str "SHELL 0042") 3] []).
Proof.
  apply (run_one_rule_per_pattern (fun _ _ => 0)).
  intros i j r r' Hi. destruct i; discriminate Hi.
Defined.

(** An instance: four transactions, two of which are relabelled. *)
Lemma batch_count_matching_two :
  fst (batch_categorize_similar (str "COSTCO WHOLESALE #123") 1
         [mk_transaction 0 (str "Costco Wholesale #456") f0_0 0 [] false f0_0;
          mk_transaction 0 (str "SHELL") f0_0 0 [] false f0_0;
          mk_transaction 0 (str "COSTCO WHOLESALE") f0_0 2 [] false f0_0;
          mk_transaction 0 (str "costco wholesale") f0_0 0 [] false f0_0])
  = length (List.filter
              (uncategorized_like (merchant_pattern (str "COSTCO WHOLESALE #123")))
         [mk_transaction 0 (str "Costco Wholesale #456") f0_0 0 [] false f0_0;
          mk_transaction 0 (str "SHELL") f0_0 0 [] false f0_0;
          mk_transaction 0 (str "COSTCO WHOLESALE") f0_0 2 [] false f0_0;
          mk_transaction 0 (str "costco wholesale") f0_0 0 [] false f0_0]).
Proof.
  apply (batch_count_matching (str "COSTCO WHOLESALE #123") 1). lia.
Defined.

End EngineFacts.

(** ** More on the ingestion parser *)

Module CsvMoreFacts.
Import PyFacts CsvFacts EngineFacts.

(** *** The column mapper *)

Lemma header_named_spec (headers : list text) (name : text) :
  match header_named headers name with
  | Some h =>
    exists hs1 hs2, headers = hs1 ++ h :: hs2 /\ header_key h = name /\
      forall h', h' ∈ hs1 -> header_key h' <> name
  | None => forall h', h' ∈ headers -> header_key h' <> name
  end.
Proof.
  unfold header_named, header_key.
  induction headers as [|x headers IH]; simpl.
  - intros h' H. by apply elem_of_nil in H.
  - destruct (eqb_text (strip (lower x)) name) eqn:E.
    + apply eqb_text_eq in E. exists [], headers. split; [done|]. split; [done|].
      intros h' H. by apply elem_of_nil in H.
    + assert (strip (lower x) <> name) as Hx.
      { intros Hx. apply eqb_text_eq in Hx. congruence. }
      destruct (List.find _ headers) as [h|].
      * destruct IH as (hs1 & hs2 & -> & Hk & Hn). exists (x :: hs1), hs2.
        split; [done|]. split; [done|].
        intros h' [->|H]%elem_of_cons; [done|by apply Hn].
      * intros h' [->|H]%elem_of_cons; [done|by apply IH].
Qed.

(** X8.  [find_column] goes by the order of the synonyms first: it returns the
    first header (in header order) that bears the first synonym (in synonym
    order) borne by any header; it returns nothing exactly when no header
    bears any synonym. *)
Theorem find_column_spec (headers names : list text) :
  match find_column headers names with
  | Some h =>
    exists pre n post hs1 hs2,
      names = pre ++ n :: post /\ headers = hs1 ++ h :: hs2 /\
      header_key h = n /\
      (forall h', h' ∈ hs1 -> header_key h' <> n) /\
      (forall n' h', n' ∈ pre -> h' ∈ headers -> header_key h' <> n')
  | None => ~ role_present headers names
  end.
Proof.
  induction names as [|n names IH]; simpl.
  - intros (h & _ & H). by apply elem_of_nil in H.
  - pose proof (header_named_spec headers n) as Hn.
    destruct (header_named headers n) as [h|].
    + destruct Hn as (hs1 & hs2 & -> & Hk & Hfirst).
      exists [], n, names, hs1, hs2. repeat split; [done..|].
      intros n' h' H. by apply elem_of_nil in H.
    + destruct (find_column headers names) as [h|].
      * destruct IH as (pre & n0 & post & hs1 & hs2 & -> & -> & Hk & Hf & Hp).
        exists (n :: pre), n0, post, hs1, hs2. repeat split; [done..|].
        intros n' h' [->|H]%elem_of_cons Hh; [by apply Hn|by apply Hp].
      * intros (h & Hh & [E|H]%elem_of_cons).
        -- by apply (Hn h).
        -- apply IH. by exists h.
Qed.

Lemma find_column_present (headers names : list text) :
  is_Some (find_column headers names) <-> role_present headers names.
Proof.
  induction names as [|n names IH]; simpl.
  - split; [by intros [? [=]]|]. intros (h & _ & H). by apply elem_of_nil in H.
  - pose proof (header_named_spec headers n) as Hn.
    destruct (header_named headers n) as [h|].
    + split; [intros _|by eexists].
      destruct Hn as (hs1 & hs2 & -> & Hk & _). exists h. split.
      * rewrite elem_of_app, elem_of_cons. right. by left.
      * rewrite Hk, elem_of_cons. by left.
    + rewrite IH. split; intros (h & Hh & Hk).
      * exists h. split; [done|]. rewrite elem_of_cons. by right.
      * apply elem_of_cons in Hk as [E|Hk]; [by destruct (Hn h Hh)|by exists h].
Qed.

Lemma amount_headers_present (headers : list text) :
  omap (header_named headers) AMOUNT_COLUMNS <> [] <->
  role_present headers AMOUNT_COLUMNS.
Proof.
  split.
  - intros Hne. destruct (omap _ _) as [|a l] eqn:E; [done|].
    assert (a ∈ omap (header_named headers) AMOUNT_COLUMNS) as Ha
      by (rewrite E, elem_of_cons; by left).
    apply list_elem_of_omap in Ha as (n & Hn & Ha).
    pose proof (header_named_spec headers n) as S. rewrite Ha in S.
    destruct S as (hs1 & hs2 & -> & Hk & _). exists a.
    split; [|by rewrite Hk].
    rewrite elem_of_app, elem_of_cons. right. by left.
  - intros (h & Hh & Hk) E.
    assert (forall n, n ∈ AMOUNT_COLUMNS -> header_named headers n = None) as Hnone.
    { intros n Hn. destruct (header_named headers n) as [a|] eqn:Ea; [|done].
      assert (a ∈ omap (header_named headers) AMOUNT_COLUMNS) as Hin
        by (apply list_elem_of_omap; eauto).
      rewrite E in Hin. by apply elem_of_nil in Hin. }
    pose proof (header_named_spec headers (header_key h)) as S.
    rewrite (Hnone _ Hk) in S. by apply (S h).
Qed.

(** X9.  [detect_columns] succeeds exactly when every role has a header.  The
    mapping it returns names headers of the file, and holds either the one
    amount column or the list of two or more amount columns, never both and
    never neither. *)
Theorem detect_columns_spec (headers : list text) :
  ((exists m, detect_columns headers = Ok m) <->
   role_present headers DATE_COLUMNS /\
   role_present headers DESCRIPTION_COLUMNS /\
   role_present headers AMOUNT_COLUMNS) /\
  (forall m, detect_columns headers = Ok m ->
     date m ∈ headers /\ description m ∈ headers /\
     ((exists a, amount m = Some a /\ amount_columns m = None /\ a ∈ headers) \/
      (exists cols, amount m = None /\ amount_columns m = Some cols /\
         (2 <= length cols)%nat /\ Forall (fun col => col ∈ headers) cols))).
Proof.
  split.
  - rewrite <- amount_headers_present, <- !find_column_present.
    unfold detect_columns.
    destruct (find_column headers DATE_COLUMNS) as [dc|].
    2: { split; [by intros [m ?]|]. by intros ([? [=]] & _). }
    destruct (find_column headers DESCRIPTION_COLUMNS) as [sc|].
    2: { split; [by intros [m ?]|]. by intros (_ & [? [=]] & _). }
    destruct (omap _ AMOUNT_COLUMNS) as [|a [|b l]].
    + split; [by intros [m ?]|]. by intros (_ & _ & ?).
    + split; [|by eexists]. intros _. by repeat split.
    + split; [|by eexists]. intros _. by repeat split.
  - intros m Hm.
    destruct (detect_columns_cases headers) as [[role E]|(m' & E & Hd & Hs & Ha)];
      rewrite Hm in E; [done|]. injection E as <-.
    split; [done|]. split; [done|].
    destruct Ha as [?|(c & cols & Ha & Hc & Hall)]; [by left|].
    right. exists (c :: cols). repeat split; [done..| |done].
    unfold detect_columns in Hm.
    destruct (find_column headers DATE_COLUMNS); [|done].
    destruct (find_column headers DESCRIPTION_COLUMNS); [|done].
    destruct (omap _ AMOUNT_COLUMNS) as [|xa [|xb xl]]; [done| |].
    + injection Hm as <-. done.
    + injection Hm as <-. simpl in Hc. injection Hc as <- <-. simpl. lia.
Qed.

(** *** Trimming *)

Lemma lstrip_result (s : text) :
  lstrip s = [] \/ exists c t, lstrip s = c :: t /\ is_space c = false.
Proof.
  induction s as [|c s IH]; [by left|]. simpl.
  destruct (is_space c) eqn:E; [done|]. right. by exists c, s.
Qed.

Lemma lstrip_idemp (s : text) : lstrip (lstrip s) = lstrip s.
Proof.
  destruct (lstrip_result s) as [->|(c & t & -> & Hc)]; [done|].
  by apply lstrip_head.
Qed.

(** Trimming twice is trimming once. *)
Lemma strip_idemp (s : text) : strip (strip s) = strip s.
Proof.
  unfold strip, rstrip.
  set (y := lstrip s). set (z := lstrip (rev y)).
  assert (lstrip (rev z) = rev z) as E.
  { destruct (lstrip_suffix (rev y)) as [a Ha]. fold z in Ha.
    apply (f_equal (@rev _)) in Ha. rewrite rev_involutive, rev_app_distr in Ha.
    destruct (rev z) as [|c t] eqn:Ez; [done|].
    destruct (lstrip_result s) as [E0|(c0 & t0 & E0 & Hc)]; fold y in E0.
    - rewrite E0 in Ha. done.
    - rewrite E0 in Ha. injection Ha as -> _. by apply lstrip_head. }
  rewrite E, rev_involutive. unfold z. by rewrite lstrip_idemp.
Qed.

(** X10.  [parse_amount] does not look at the space around an amount. *)
Theorem parse_amount_trimmed (s : text) :
  parse_amount (CStr (strip s)) =
  match parse_amount (CStr s) with
  | Ok a => Ok a
  | Raise _ => Raise (ValueError (str "Could not parse amount: " ++ strip s))
  end.
Proof.
  rewrite !parse_amount_text. unfold blank_or_null. rewrite !strip_idemp.
  destruct (strip s) as [|c t]; [done|].
  destruct (existsb _ _); [done|]. by destruct (py_float _).
Qed.

(** *** Several amount columns *)

(** X11.  With several amount columns, the amount is read from the first column,
    in the order of the mapping, whose cell is not blank, and is that cell
    trimmed; when all are blank there is none.  The loop fails only on a
    cell that is not text, met before any cell that is not blank. *)
Theorem first_amount_spec (row : gmap text cell) (cols : list text) :
  match first_amount row cols with
  | Ok (Some v) =>
    exists pre col post s,
      cols = pre ++ col :: post /\
      Forall (fun c => blank_cell (cell_or_empty row c)) pre /\
      cell_or_empty row col = CStr s /\ strip s = v /\ v <> []
  | Ok None => Forall (fun c => blank_cell (cell_or_empty row c)) cols
  | Raise e =>
    e = no_strip /\
    exists pre col post,
      cols = pre ++ col :: post /\
      Forall (fun c => blank_cell (cell_or_empty row c)) pre /\
      forall s, cell_or_empty row col <> CStr s
  end.
Proof.
  induction cols as [|col cols IH]; [by constructor|]. cbn [first_amount].
  fold (cell_or_empty row col).
  destruct (cell_or_empty row col) as [|s|x] eqn:E; cbn.
  - split; [done|]. exists [], col, cols. rewrite E. by repeat split.
  - destruct (strip s) as [|c t] eqn:Es.
    + assert (blank_cell (cell_or_empty row col)) as Hb
        by (rewrite E; by exists s).
      destruct (first_amount row cols) as [[v|]|e].
      * destruct IH as (pre & col' & post & s' & -> & Hpre & Hc & Hs & Hv).
        exists (col :: pre), col', post, s'. repeat split; [|done..].
        by constructor.
      * by constructor.
      * destruct IH as (-> & pre & col' & post & -> & Hpre & Hc).
        split; [done|]. exists (col :: pre), col', post.
        repeat split; [|done]. by constructor.
    + exists [], col, cols, s. rewrite E. by repeat split.
  - split; [done|]. exists [], col, cols. rewrite E. by repeat split.
Qed.


Section Accounting.

Variable datetime : Type.
Variable dateutil_parse : text -> option datetime.
Variable strptime : text -> text -> option datetime.

Local Abbreviation parse_row := (_parse_row datetime dateutil_parse strptime).

(** The description of a record is the trimmed cell. *)
Lemma parse_row_description (row : gmap text cell) (m : column_mapping)
  (rec : record datetime) :
  parse_row row m = Ok (Some rec) ->
  exists s, getitem row (description m) = Ok (CStr s) /\
            rec_description rec = strip s.
Proof.
  unfold _parse_row. destruct (getitem row (date m)) as [ds|]; [|done].
  destruct (getitem row (description m)) as [desc|]; [|done].
  destruct (amount_cell row m) as [v|]; [|done]. cbn.
  destruct (_ && _); [done|].
  destruct (detect_date_format _ _ _ ds); [|done]. cbn.
  destruct desc as [|s|x]; [done| |done]. cbn.
  destruct (parse_amount v); [|done]. cbn.
  intros [= <-]. by exists s.
Qed.

(** What the loop of [parse_csv] adds, whatever the rows are. *)
Lemma parse_rows_adds (fieldnames : list text) (m : column_mapping)
  (rows : list (list text)) (txns txns' : list (record datetime))
  (errs errs' : list text) (n n' : nat) :
  parse_rows datetime dateutil_parse strptime fieldnames m (txns, errs, n) rows
  = Ok (txns', errs', n') ->
  exists new_txns new_errs,
    txns' = txns ++ new_txns /\ errs' = errs ++ new_errs /\
    (length new_txns + length new_errs <= length (data_rows rows))%nat /\
    Forall (fun t => exists row,
              parse_row (dict_row fieldnames row) m = Ok (Some t)) new_txns.
Proof.
  revert txns errs n. induction rows as [|row rows IH]; intros txns errs n.
  - intros [= <- <- <-]. exists [], []. by rewrite !app_nil_r.
  - destruct row as [|c row]; [apply IH|].
    change (data_rows ((c :: row) :: rows)) with ((c :: row) :: data_rows rows).
    cbn [parse_rows parse_step].
    destruct (parse_row (dict_row fieldnames (c :: row)) m)
      as [[t|]|[msg|msg|msg|msg]] eqn:E; cbn; [| | | |done|done].
    + intros (nt & ne & -> & -> & Hl & Hf)%IH. exists (t :: nt), ne.
      rewrite <- app_assoc. repeat split; [simpl; lia|].
      constructor; [by eexists|done].
    + intros (nt & ne & -> & -> & Hl & Hf)%IH. exists nt, ne.
      repeat split; [simpl; lia|done].
    + intros (nt & ne & -> & -> & Hl & Hf)%IH. eexists nt, (_ :: ne).
      rewrite <- app_assoc. repeat split; [simpl; lia|done].
    + intros (nt & ne & -> & -> & Hl & Hf)%IH. eexists nt, (_ :: ne).
      rewrite <- app_assoc. repeat split; [simpl; lia|done].
Qed.

(** X12.  Whenever [parse_csv] returns, [row_count] is the number of records, and
    records and error entries together are at most as many as the rows that
    have a cell: each such row gives one record, or one entry, or nothing.
    Every record carries a trimmed description. *)
Theorem parse_csv_accounting (file : reading)
  (name : option text) (res : parsed datetime) :
  parse_csv datetime dateutil_parse strptime file name = Ok res ->
  row_count res = length (transactions res) /\
  (length (transactions res) + length (errors res)
   <= length (data_rows (tail (yielded file))))%nat /\
  Forall (fun t => strip (rec_description t) = rec_description t)
         (transactions res).
Proof.
  unfold parse_csv. destruct file as [[|[|h fieldnames] rows] fl]; cbn [yielded].
  { by destruct (reader_end _). }
  { done. }
  destruct (detect_columns (h :: fieldnames)) as [m|]; [|done]. cbn.
  destruct (parse_rows _ _ _ _ _ _ rows) as [[[txns errs] n]|] eqn:E; [|done].
  cbn. destruct (reader_end _); [|done]. cbn. intros [= <-]. cbn.
  apply parse_rows_adds in E as (nt & ne & -> & -> & Hl & Hf). cbn.
  repeat split; [done|].
  eapply Forall_impl; [exact Hf|]. intros t [row Ht]. cbn in Ht.
  apply parse_row_description in Ht as (s & _ & ->). apply strip_idemp.
Qed.

End Accounting.

(** An instance: one record, one error entry and
    one row passed over, from three rows. *)
Lemma parse_csv_accounting_three :
  let res := mk_parsed
               [mk_record (2024, 12, 19) (str "COSTCO") (SFopp (of_decimal 1047 (-2)))]
               (str "bank.csv") 1
               [str "Row 3: Could not parse date: not a date"]
               (mk_mapping (str "Date") (str "Description")
                  (Some (str "Amount")) None) in
  row_count res = length (transactions res) /\
  (length (transactions res) + length (errors res) <= 3)%nat /\
  Forall (fun t => strip (rec_description t) = rec_description t)
         (transactions res).
Proof.
  apply (parse_csv_accounting (Z * Z * Z) example_dateutil example_strptime
           (mk_reading
              [[str "Date"; str "Description"; str "Amount"];
               [str "2024-12-19"; str "  COSTCO "; str "-10.47"];
               [str "not a date"; str "SHELL"; str "1.00"];
               [str ""; str ""; str ""]] None)
           (Some (str "bank.csv"))).
  vm_compute. reflexivity.
Defined.

End CsvMoreFacts.

(** ** Upload, validation and statistics *)

Module UploadFacts.
Import PyFacts CategorizationFacts CsvFacts EngineFacts CsvMoreFacts.

(** *** File names *)

Lemma before_dot_spec (s : text) :
  (existsb (eqb_char dot) s = false /\ before_dot s = s) \/
  (exists rest, s = before_dot s ++ dot :: rest /\
     existsb (eqb_char dot) (before_dot s) = false).
Proof.
  induction s as [|c s IH]; [by left|]. cbn [existsb before_dot].
  destruct (eqb_char c dot) eqn:E.
  - apply eqb_char_eq in E as ->. right. exists s. done.
  - assert (eqb_char dot c = false) as E'.
    { destruct (eqb_char dot c) eqn:E'; [|done].
      apply eqb_char_eq in E' as <-. by rewrite eqb_char_refl in E. }
    rewrite E'. cbn [orb].
    destruct IH as [[H1 H2]|(rest & H1 & H2)].
    + left. by rewrite H2.
    + right. exists rest. cbn [existsb app]. rewrite E'.
      split; [by rewrite <- H1|done].
Qed.

Lemma existsb_rev (f : ascii -> bool) (s : text) :
  existsb f (rev s) = existsb f s.
Proof.
  induction s as [|c s IH]; [done|]. simpl.
  rewrite existsb_app, IH. simpl. rewrite orb_false_r. apply orb_comm.
Qed.

(** X13.  [allowed_file] accepts exactly the names [base.ext] whose extension,
    the text after the last dot, is csv or txt in any letter case. *)
Theorem allowed_file_spec (filename : text) :
  allowed_file filename = true <->
  exists base ext,
    filename = base ++ dot :: ext /\
    existsb (eqb_char dot) ext = false /\
    (lower ext = str "csv" \/ lower ext = str "txt").
Proof.
  unfold allowed_file, after_last_dot. rewrite andb_true_iff.
  assert (forall e, existsb (eqb_text (lower e)) allowed_extensions = true <->
            lower e = str "csv" \/ lower e = str "txt") as Hext.
  { intros e. unfold allowed_extensions. cbn [existsb].
    rewrite !orb_true_iff, !eqb_text_eq. intuition congruence. }
  rewrite Hext. split.
  - intros [Hdot Hl].
    destruct (before_dot_spec (rev filename)) as [[H1 _]|(rest & H1 & H2)].
    + rewrite existsb_rev in H1. congruence.
    + exists (rev rest), (rev (before_dot (rev filename))).
      split; [|split; [by rewrite existsb_rev|done]].
      apply (f_equal (@rev _)) in H1. rewrite rev_involutive in H1.
      rewrite H1 at 1. rewrite rev_app_distr. simpl. by rewrite <- app_assoc.
  - intros (base & ext & -> & Hno & Hl).
    assert (before_dot (rev (base ++ dot :: ext)) = rev ext) as E.
    { rewrite rev_app_distr. cbn [rev]. rewrite <- app_assoc. cbn [app].
      rewrite <- existsb_rev in Hno. revert Hno.
      generalize (rev ext) as e. intros e.
      induction e as [|c e IH]; cbn [app before_dot existsb].
      - intros _. by rewrite eqb_char_refl.
      - intros [H1 H2]%orb_false_iff.
        assert (eqb_char c dot = false) as H1'.
        { destruct (eqb_char c dot) eqn:E'; [|done].
          apply eqb_char_eq in E' as ->. by rewrite eqb_char_refl in H1. }
        rewrite H1'. by rewrite IH. }
    rewrite E, rev_involutive. split; [|done].
    rewrite existsb_app. cbn [existsb]. rewrite eqb_char_refl.
    apply orb_true_r.
Qed.


(** *** Validation before import *)

Section Validated.

Variable datetime : Type.
Variable dateutil_parse : text -> option datetime.
Variable strptime : text -> text -> option datetime.

Local Abbreviation parse := (parse_csv datetime dateutil_parse strptime).

(** X14.  [validate_csv] and [parse_csv] judge the header row alike.
    [validate_csv] raises only the [csv.Error] of a reader that fails before
    it yields a first row, and [parse_csv] then raises the same error.  A
    file [validate_csv] rejects is one [parse_csv] refuses with a
    [ValueError] of the same message.  On a file [validate_csv] accepts,
    [parse_csv] finds the same column mapping: it returns, or it is stopped
    by the [AttributeError] of a short row or by the [csv.Error] of the
    reader further in the file; it returns whenever every row has a cell
    under every header and the reader reads the content to its end. *)
Theorem validate_then_parse (file : reading) (name : option text) :
  match validate_csv file with
  | Raise e =>
    exists msg, yielded file = [] /\ failure file = Some msg /\
      e = CsvError msg /\ parse file name = Raise (CsvError msg)
  | Ok (Invalid _ error) => parse file name = Raise (ValueError error)
  | Ok (Valid headers m) =>
    head (yielded file) = Some headers /\
    ((exists res, parse file name = Ok res /\ mapping res = m) \/
     (exists msg, parse file name = Raise (AttributeError msg)) \/
     (exists msg, failure file = Some msg /\
        parse file name = Raise (CsvError msg))) /\
    (Forall (complete headers) (data_rows (tail (yielded file))) ->
     failure file = None ->
     exists res, parse file name = Ok res /\ mapping res = m)
  end.
Proof.
  unfold validate_csv, parse_csv.
  destruct file as [[|[|h fieldnames] rows] fl]; cbn [yielded failure].
  { unfold reader_end. cbn [failure]. destruct fl as [msg|]; cbn; [|done].
    by exists msg. }
  { done. }
  destruct (detect_columns_cases (h :: fieldnames)) as [[role E]|(m & E & _)];
    rewrite E; [done|]. cbn.
  split; [done|]. unfold reader_end. cbn [failure head tail].
  destruct (parse_rows _ _ _ _ m _ rows) as [[[txns errs] n]|e] eqn:P; cbn.
  - destruct fl as [msg|]; cbn.
    + split; [right; right; by exists msg|done].
    + split; [left|intros _ _]; by eexists.
  - destruct (parse_rows_raises _ _ _ _ _ _ _ _ P) as [msg ->].
    split; [right; left; by eexists|].
    intros Hc _. exfalso.
    pose proof (parse_rows_spec datetime dateutil_parse strptime
                  (h :: fieldnames) m rows [] [] 1
                  (complete_rows_strip datetime dateutil_parse strptime
                     _ _ _ E Hc)) as S.
    rewrite S in P. done.
Qed.

End Validated.

End UploadFacts.

Module StatsFacts.
Import PyFacts CategorizationFacts CsvFacts EngineFacts CsvMoreFacts.

(** *** Statistics *)

Lemma insert_desc_perm d l : insert_desc d l ≡ₚ d :: l.
Proof.
  induction l as [|h t IH]; simpl; [done|].
  destruct (_ <=? _); [done|]. rewrite IH. apply Permutation_swap.
Qed.

Lemma sort_perm l : sort_use_count_desc l ≡ₚ l.
Proof.
  induction l as [|a l IH]; simpl; [done|]. by rewrite insert_desc_perm, IH.
Qed.

Lemma enumerate_fst {A} (k : nat) (db : list A) :
  map fst (enumerate k db) = seq k (length db).
Proof.
  revert k. induction db as [|x db IH]; intros k; simpl; [done|]. by rewrite IH.
Qed.

Lemma find_all {A} (db : list A) : find (fun _ => true) db = enumerate 0 db.
Proof.
  unfold find. generalize 0%nat. induction db as [|x db IH]; intros k; simpl;
    [done|]. by rewrite IH.
Qed.

Lemma count_filter {A} (q : A -> bool) (db : list A) :
  count_documents q db = length (List.filter q db).
Proof.
  unfold count_documents, find. generalize 0%nat.
  induction db as [|x db IH]; intros k; simpl; [done|].
  destruct (q x); simpl; by rewrite IH.
Qed.

Lemma filter_cons_length {A} (q : A -> bool) (x : A) (db : list A) :
  length (List.filter q (x :: db)) =
  ((if q x then 1 else 0) + length (List.filter q db))%nat.
Proof. simpl. by destruct (q x). Qed.

Lemma sorted_app_inv (R : nat * rule -> nat * rule -> Prop) l1 l2 :
  StronglySorted R (l1 ++ l2) ->
  StronglySorted R l1 /\ forall a b, a ∈ l1 -> b ∈ l2 -> R a b.
Proof.
  induction l1 as [|x l1 IH]; simpl.
  - intros _. split; [constructor|]. intros a b H. by apply elem_of_nil in H.
  - intros H. inversion H as [|? ? Hs Hx]; subst.
    destruct (IH Hs) as [Hs1 Hall]. apply Forall_app in Hx as [Hx1 Hx2].
    split; [by constructor|].
    intros a b [->|Ha]%elem_of_cons Hb; [|by apply Hall].
    rewrite Forall_forall in Hx2. by apply Hx2.
Qed.

(** X15.  [get_categorization_stats] counts every rule once in [total_rules] and
    at most once among the four types.  [most_used_rules] lists ten rules,
    or all of them when there are fewer, each rule once, by descending use
    count, and no rule left out has a larger count than a rule listed. *)
Theorem stats_spec (db : list rule) :
  let st := get_categorization_stats db in
  total_rules st = length db /\
  (list_sum (map snd (rules_by_type st)) <= total_rules st)%nat /\
  most_used_rules st = map summary (most_used db) /\
  length (most_used db) = Nat.min 10 (length db) /\
  NoDup (map fst (most_used db)) /\
  (forall i r, (i, r) ∈ most_used db -> db !! i = Some r) /\
  StronglySorted (fun a b => uc b <= uc a) (most_used db) /\
  (forall i r j r', (i, r) ∈ most_used db -> db !! j = Some r' ->
     j ∉ map fst (most_used db) -> use_count r' <= use_count r).
Proof.
  cbv zeta. unfold get_categorization_stats. cbn [total_rules rules_by_type
    most_used_rules map snd list_sum].
  rewrite !count_filter.
  set (s := sort_use_count_desc (find (fun _ => true) db)).
  assert (s ≡ₚ enumerate 0 db) as Hp
    by (unfold s; by rewrite sort_perm, find_all).
  assert (most_used db = take 10 s) as -> by done.
  assert (forall i r, (i, r) ∈ s <-> db !! i = Some r) as Hin.
  { intros i r. rewrite Hp, list_elem_of_In, enumerate_In.
    replace (i - 0)%nat with i by lia. intuition lia. }
  destruct (sorted_app_inv (fun a b => uc b <= uc a) (take 10 s) (drop 10 s))
    as [Hs Hall]; [rewrite take_drop; apply sort_sorted|].
  split; [|split; [|split; [done|split; [|split; [|split; [|split; [done|]]]]]]].
  - clear. induction db as [|x db IH]; simpl; [done|]. lia.
  - clear. induction db as [|x db IH]; [simpl; lia|].
    rewrite !filter_cons_length. cbn [list_sum] in *.
    simpl in IH.
    unfold is_type at 1 3 5 7. destruct (rule_match_type x); simpl; lia.
  - rewrite length_take. f_equal.
    rewrite (Permutation_length Hp), <- (length_map fst), enumerate_fst.
    apply length_seq.
  - assert (NoDup (map fst s)) as Hnd.
    { rewrite Hp, enumerate_fst. apply NoDup_ListNoDup, List.seq_NoDup. }
    rewrite <- (take_drop 10 s), map_app in Hnd. by apply NoDup_app in Hnd as [? _].
  - intros i r Hi. apply Hin. rewrite <- (take_drop 10 s), elem_of_app. by left.
  - intros i r j r' Hi Hj Hout.
    assert ((j, r') ∈ drop 10 s) as Hd.
    { apply Hin in Hj. rewrite <- (take_drop 10 s), elem_of_app in Hj.
      destruct Hj as [Hj|Hj]; [|done]. destruct Hout.
      apply list_elem_of_fmap. by exists (j, r'). }
    apply (Hall (i, r) (j, r') Hi Hd).
Qed.

End StatsFacts.

(** ** Facts on the transaction model and the import loop *)

Module ImportFacts.
Import PyFacts CategorizationFacts CsvFacts EngineFacts CsvMoreFacts.
Import Transactions.

(** *** Confidence values *)

(** A score from 80 to 100, divided by 100.0, is a confidence in range. *)
Lemma score_in_range (s : Z) :
  80 <= s <= 100 -> in_unit_range (fdiv (of_Z s) f100_0) = true.
Proof.
  intros H.
  assert (forallb (fun n => in_unit_range (fdiv (of_Z (80 + Z.of_nat n)) f100_0))
            (seq 0 21) = true) as A by (vm_compute; reflexivity).
  rewrite List.forallb_forall in A. specialize (A (Z.to_nat (s - 80))).
  replace (80 + Z.of_nat (Z.to_nat (s - 80))) with s in A by lia.
  apply A. apply in_seq. lia.
Qed.

Lemma total_use_alter (now : Z) (db : list rule) (i : nat) (r : rule) :
  db !! i = Some r ->
  total_use (alter (touch now) i db) = total_use db + 1.
Proof.
  unfold total_use.
  revert i. induction db as [|x db IH]; intros [|i] H; try done.
  - injection H as ->. simpl. lia.
  - change (alter (touch now) (S i) (x :: db))
      with (x :: alter (touch now) i db).
    cbn [foldr]. rewrite (IH i H). lia.
Qed.

(** What [categorize] returns and leaves: the category of a stored rule,
    with one of the three kinds of confidence, and that rule used once more;
    or the uncategorized result and the collection as it was. *)
Lemma categorize_result (ratio : text -> text -> Z) (now : Z) (d : text)
  (db : list rule) :
  let res := fst (categorize ratio now d db) in
  let db' := snd (categorize ratio now d db) in
  (exists i r, db !! i = Some r /\ db' = alter (touch now) i db /\
     res_category_id res = category_id r /\
     is_none (res_match_type res) = false /\
     (confidence res = f1_0 \/ confidence res = f0_9 \/
      (80 <= fuzzy_score ratio (normalize d) r /\
       confidence res =
       fdiv (of_Z (fuzzy_score ratio (normalize d) r)) f100_0))) \/
  (res = hit 0 f0_0 none /\ db' = db).
Proof.
  cbv zeta.
  destruct (categorize_tiers ratio now d db) as (E & K & F & _).
  destruct (categorize_outcome ratio now d db)
    as [(i & r & Hi & Hc & Hs)|[Hr Hs]]; [left|by right].
  exists i, r. split; [done|]. split; [done|].
  destruct Hc as [H|[NE [H|(NC & H & Hsc)]]].
  - rewrite (E _ _ H). unfold hit.
    cbn [res_category_id res_match_type confidence is_none].
    split; [done|]. split; [done|]. by left.
  - rewrite (K NE _ _ H). unfold hit.
    cbn [res_category_id res_match_type confidence is_none].
    split; [done|]. split; [done|]. right. by left.
  - rewrite (F NE NC _ _ H Hsc). unfold hit.
    cbn [res_category_id res_match_type confidence is_none].
    split; [done|]. split; [done|]. right. right. done.
Qed.

Section ImportLoop.

Context {datetime : Type}.
Variable strptime : text -> text -> option datetime.
Variable str_float : pyfloat -> text.
Variable ratio : text -> text -> Z.
Variables used_at created_at : nat -> Z.

Local Abbreviation process_one :=
  (process_one datetime strptime str_float ratio used_at created_at).
Local Abbreviation process_loop :=
  (process_loop datetime strptime str_float ratio used_at created_at).

(** One turn of the loop: the record is saved, or [create] rejects what
    [categorize] returned, after [categorize] has run. *)
Lemma process_one_cases (k : nat) (filename : text) (r : record datetime)
  (db : collections datetime) :
  let res := fst (categorize ratio (used_at k) (rec_description r) (fst db)) in
  let rules := snd (categorize ratio (used_at k) (rec_description r) (fst db)) in
  (exists t,
     process_one k filename r db =
     ((rules, snd db ++ [t]), Ok (negb (is_none (res_match_type res)))) /\
     saved_from datetime filename r t /\
     doc_category_id t = res_category_id res /\
     doc_confidence t = confidence res /\
     doc_auto_categorized t = negb (is_none (res_match_type res)) /\
     0 <= res_category_id res /\ in_unit_range (confidence res) = true) \/
  (exists msg,
     process_one k filename r db = ((rules, snd db), Raise (ValueError msg)) /\
     (res_category_id res < 0 \/ in_unit_range (confidence res) = false)).
Proof.
  cbv zeta. unfold Transactions.process_one.
  destruct (categorize ratio (used_at k) (rec_description r) (fst db))
    as [res rules].
  unfold create. cbn [fst snd default from_option id opt_category_id
    opt_confidence opt_auto_categorized opt_notes opt_source_file mbind
    outcome_bind].
  destruct (Z.ltb_spec (res_category_id res) 0) as [Hneg|Hpos].
  { right. eexists. split; [reflexivity|]. by left. }
  destruct (in_unit_range (confidence res)) eqn:Hc; cbn [negb].
  - left. eexists. split; [reflexivity|]. by repeat split.
  - right. eexists. split; [reflexivity|]. by right.
Qed.

(** Under the two conditions, [create] accepts what [categorize] returns,
    and the rules stay valid. *)
Lemma process_one_saves (k : nat) (filename : text) (r : record datetime)
  (db : collections datetime) :
  scores_bounded ratio -> categories_valid (fst db) ->
  exists rules t b,
    process_one k filename r db = ((rules, snd db ++ [t]), Ok b) /\
    categories_valid rules /\ well_formed t.
Proof.
  intros Hs Hv.
  destruct (process_one_cases k filename r db)
    as [(t & -> & _ & Ec & Ef & Ea & _)|(msg & _ & Hbad)].
  - eexists _, t, _. split; [reflexivity|].
    destruct (categorize_result ratio (used_at k) (rec_description r) (fst db))
      as [(i & x & Hi & -> & Hcat & Hn & Hconf)|[Hres ->]].
    + split.
      { apply Forall_alter; [done|]. intros y _ Hy. done. }
      unfold well_formed. rewrite Ec, Ef, Ea, Hcat, Hn.
      split; [by apply (Forall_lookup_1 _ _ _ _ Hv Hi)|]. split; [|done].
      destruct Hconf as [->|[->|[H80 ->]]]; [done..|].
      apply score_in_range. split; [done|apply Hs].
    + split; [done|]. unfold well_formed. rewrite Ec, Ef, Ea, Hres. done.
  - exfalso.
    destruct (categorize_result ratio (used_at k) (rec_description r) (fst db))
      as [(i & x & Hi & _ & Hcat & _ & Hconf)|[Hres _]].
    + destruct Hbad as [Hneg|Hout].
      * rewrite Hcat in Hneg.
        pose proof (Forall_lookup_1 _ _ _ _ Hv Hi) as H0. simpl in H0. lia.
      * destruct Hconf as [E|[E|[H80 E]]]; rewrite E in Hout; try done.
        rewrite score_in_range in Hout; [done|]. split; [done|apply Hs].
    + rewrite Hres in Hbad. by destruct Hbad.
Qed.

Lemma count_auto_cons (docs : list (document datetime)) (t : document datetime) :
  count_auto (t :: docs) =
  ((if doc_auto_categorized t then 1 else 0) + count_auto docs)%nat.
Proof. unfold count_auto. simpl. by destruct (doc_auto_categorized t). Qed.

(** The loop, whatever the rules and the scorer. *)
Lemma process_loop_spec (filename : text) (l : list (record datetime)) :
  forall (k : nat) (db : collections datetime) (c u : nat),
  let out := process_loop k filename l db c u in
  exists docs,
    snd (fst out) = snd db ++ docs /\
    length (fst (fst out)) = length (fst db) /\
    Forall2 (saved_from datetime filename) (take (length docs) l) docs /\
    match snd out with
    | Ok (c', u') =>
      length docs = length l /\
      c' = (c + count_auto docs)%nat /\
      (c' + u' = c + u + length docs)%nat /\
      total_use (fst (fst out)) = total_use (fst db) + Z.of_nat (count_auto docs)
    | Raise e =>
      (length docs < length l)%nat /\ exists msg, e = ValueError msg
    end.
Proof.
  induction l as [|r l IH]; intros k db c u; cbv zeta.
  { exists []. simpl. rewrite app_nil_r. split; [done|]. split; [done|].
    split; [constructor|]. unfold count_auto. simpl. repeat split; lia. }
  cbn [Transactions.process_loop].
  assert (length (snd (categorize ratio (used_at k) (rec_description r) (fst db)))
          = length (fst db)) as Hlen.
  { destruct (categorize_result ratio (used_at k) (rec_description r) (fst db))
      as [(i & x & _ & -> & _)|[_ ->]]; [apply length_alter|done]. }
  destruct (process_one_cases k filename r db)
    as [(t & -> & Hsaved & _ & _ & Ea & _)|(msg & -> & _)].
  - set (res := fst (categorize ratio (used_at k) (rec_description r) (fst db)))
      in *.
    set (rules := snd (categorize ratio (used_at k) (rec_description r) (fst db)))
      in *.
    assert (total_use rules = total_use (fst db) +
              (if doc_auto_categorized t then 1 else 0)) as Huse.
    { destruct (categorize_result ratio (used_at k) (rec_description r) (fst db))
        as [(i & x & Hi & Hr & _ & Hn & _)|[Hres Hr]];
        fold res in Hn || fold res in Hres; fold rules in Hr.
      - rewrite Ea, Hn, Hr. cbn [negb]. apply (total_use_alter _ _ _ _ Hi).
      - rewrite Ea, Hres, Hr. simpl. lia. }
    destruct (negb (is_none (res_match_type res))) eqn:Hb.
    + specialize (IH (S k) (rules, snd db ++ [t]) (S c) u). cbv zeta in IH.
      destruct IH as (docs & Hd & Hl & Hf & Hm). exists (t :: docs).
      cbn [fst snd] in *. rewrite Hd, <- app_assoc. split; [done|].
      split; [congruence|]. split; [simpl; by constructor|].
      destruct (snd (process_loop _ _ _ _ _ _)) as [[c' u']|e].
      * destruct Hm as (H1 & H2 & H3 & H4). rewrite count_auto_cons, Ea.
        simpl. rewrite Ea in Huse. repeat split; lia.
      * destruct Hm as [H1 H2]. split; [simpl; lia|done].
    + specialize (IH (S k) (rules, snd db ++ [t]) c (S u)). cbv zeta in IH.
      destruct IH as (docs & Hd & Hl & Hf & Hm). exists (t :: docs).
      cbn [fst snd] in *. rewrite Hd, <- app_assoc. split; [done|].
      split; [congruence|]. split; [simpl; by constructor|].
      destruct (snd (process_loop _ _ _ _ _ _)) as [[c' u']|e].
      * destruct Hm as (H1 & H2 & H3 & H4). rewrite count_auto_cons, Ea.
        simpl. rewrite Ea in Huse. repeat split; lia.
      * destruct Hm as [H1 H2]. split; [simpl; lia|done].
  - exists []. cbn [fst snd]. rewrite app_nil_r. split; [done|].
    split; [done|]. split; [constructor|]. split; [simpl; lia|by exists msg].
Qed.

(** The loop under the two conditions: it does not raise. *)
Lemma process_loop_saves (filename : text) (l : list (record datetime)) :
  scores_bounded ratio ->
  forall (k : nat) (db : collections datetime) (c u : nat),
  categories_valid (fst db) ->
  exists rules docs c' u',
    process_loop k filename l db c u = ((rules, snd db ++ docs), Ok (c', u')) /\
    categories_valid rules /\ Forall well_formed docs.
Proof.
  intros Hs. induction l as [|r l IH]; intros k db c u Hv.
  { exists (fst db), [], c, u. simpl. rewrite app_nil_r. by destruct db. }
  cbn [Transactions.process_loop].
  destruct (process_one_saves k filename r db Hs Hv)
    as (rules & t & b & -> & Hv' & Hw).
  destruct b.
  - destruct (IH (S k) (rules, snd db ++ [t]) (S c) u Hv')
      as (rules' & docs & c' & u' & -> & Hv'' & Hw').
    exists rules', (t :: docs), c', u'. cbn [snd]. rewrite <- app_assoc.
    split; [done|]. split; [done|]. by constructor.
  - destruct (IH (S k) (rules, snd db ++ [t]) c (S u) Hv')
      as (rules' & docs & c' & u' & -> & Hv'' & Hw').
    exists rules', (t :: docs), c', u'. cbn [snd]. rewrite <- app_assoc.
    split; [done|]. split; [done|]. by constructor.
Qed.

(** X16.  An import saves a prefix of the records.  [_process_transactions] leaves
    the transactions that were there, followed by one document for each of
    the first records of the file, in order, and as many rules as before.
    Either it returns: then every record has its document, the first number
    is [row_count], the second the number of documents marked as
    auto-categorized, the last two add up to the number of records, and the
    use counts of the rules have grown by the second number in total.  Or it
    raises a [ValueError]: then the documents saved before the rejected
    record stay in the collection. *)
Theorem import_saves_prefix (parse_result : parsed datetime) (filename : text)
  (db : collections datetime) :
  let out :=
    _process_transactions datetime strptime str_float ratio used_at created_at
      parse_result filename db in
  exists docs,
    snd (fst out) = snd db ++ docs /\
    length (fst (fst out)) = length (fst db) /\
    Forall2 (saved_from datetime filename)
      (take (length docs) (transactions parse_result)) docs /\
    match snd out with
    | Ok (n, c, u) =>
      n = row_count parse_result /\
      length docs = length (transactions parse_result) /\
      c = count_auto docs /\
      (c + u = length (transactions parse_result))%nat /\
      total_use (fst (fst out)) = total_use (fst db) + Z.of_nat c
    | Raise e =>
      (length docs < length (transactions parse_result))%nat /\
      exists msg, e = ValueError msg
    end.
Proof.
  cbv zeta. unfold _process_transactions.
  pose proof (process_loop_spec filename (transactions parse_result) 0 db 0 0)
    as (docs & Hd & Hl & Hf & Hm).
  destruct (process_loop 0 filename (transactions parse_result) db 0 0)
    as [db' [[c u]|e]]; cbn [fst snd] in *; exists docs.
  - destruct Hm as (H1 & H2 & H3 & H4). repeat split; try done; try lia.
  - done.
Qed.

(** X17.  An import does not fail when the scorer stays on its scale and no rule
    has a negative category: every record is saved, every saved document is
    well formed (category and confidence in range, and category 0 with
    confidence 0.0 when it is not marked as auto-categorized), and the rules
    still have no negative category. *)
Theorem import_all (parse_result : parsed datetime) (filename : text)
  (db : collections datetime) :
  scores_bounded ratio ->
  categories_valid (fst db) ->
  exists rules docs c u,
    _process_transactions datetime strptime str_float ratio used_at created_at
      parse_result filename db =
    ((rules, snd db ++ docs), Ok (row_count parse_result, c, u)) /\
    length docs = length (transactions parse_result) /\
    Forall well_formed docs /\
    Forall (fun t => validate t = Ok true) docs /\
    categories_valid rules.
Proof.
  intros Hs Hv. unfold _process_transactions.
  pose proof (process_loop_spec filename (transactions parse_result) 0 db 0 0)
    as (docs' & Hd & _ & _ & Hm).
  destruct (process_loop_saves filename (transactions parse_result) Hs 0 db 0 0 Hv)
    as (rules & docs & c & u & E & Hv' & Hw).
  rewrite E in Hd, Hm |- *. cbn [fst snd] in *.
  apply app_inv_head in Hd as <-. destruct Hm as (Hlen & _).
  exists rules, docs, c, u. repeat split; try done.
  eapply Forall_impl; [exact Hw|]. intros t (H0 & Hc & _). unfold validate.
  destruct (Z.ltb_spec (doc_category_id t) 0); [lia|]. by rewrite Hc.
Qed.

End ImportLoop.

(** *** [Transaction.create] *)

(** X18.  Every document [create] returns passes [validate]; its description and
    its notes are trimmed, its category and its confidence are the ones
    passed, 0 and 0.0 by default, and its upload date is the time of the
    call. *)
Theorem create_valid {datetime : Type}
  (strptime : text -> text -> option datetime) (str_float : pyfloat -> text)
  (now : Z) (date : date_arg datetime) (description : text) (amount : cell)
  (o : optional) (t : document datetime) :
  create datetime strptime str_float now date description amount o = Ok t ->
  validate t = Ok true /\
  doc_description t = strip description /\
  strip (doc_description t) = doc_description t /\
  strip (doc_notes t) = doc_notes t /\
  doc_category_id t = default 0 (opt_category_id o) /\
  doc_confidence t = default f0_0 (opt_confidence o) /\
  doc_upload_date t = now.
Proof.
  unfold create. intros H.
  destruct (match date with DateValue d => _ | DateText s => _ end) as [d|e];
    [|discriminate H].
  destruct (match amount with CNum x => _ | _ => _ end) as [x|e];
    [|discriminate H].
  cbn [mbind outcome_bind] in H.
  destruct (Z.ltb_spec (default 0 (opt_category_id o)) 0) as [|Hc];
    [discriminate H|].
  destruct (in_unit_range (default f0_0 (opt_confidence o))) eqn:Hr;
    [|discriminate H].
  injection H as <-. unfold validate.
  cbn [doc_category_id doc_confidence doc_description doc_notes
       doc_upload_date].
  destruct (Z.ltb_spec (default 0 (opt_category_id o)) 0); [lia|].
  rewrite Hr. cbn [negb]. by rewrite !strip_idemp.
Qed.

(** An instance: a date given as text, a description to
    trim, category 3 with confidence 0.9, at time 5. *)
Lemma create_valid_costco :
  let t := mk_document (2024, 12, 19) (str "Costco") f0_9 3 None 5 [] false f0_9
  in
  validate t = Ok true /\
  doc_description t = strip (str " Costco ") /\
  strip (doc_description t) = doc_description t /\
  strip (doc_notes t) = doc_notes t /\
  doc_category_id t = 3 /\
  doc_confidence t = f0_9 /\
  doc_upload_date t = 5.
Proof.
  intros t.
  apply (create_valid example_strptime (fun _ => []) 5
           (DateText (str "2024-12-19")) (str " Costco ") (CNum f0_9)
           (mk_optional (Some 3) None None None (Some f0_9)) t).
  vm_compute. reflexivity.
Defined.

(** An instance: two records, one rule that the first record
    matches, a scorer that is 0 everywhere. *)
Lemma import_all_two :
  exists rules docs c u,
    _process_transactions (Z * Z * Z) example_strptime (fun _ => [])
      (fun _ _ => 0) Z.of_nat Z.of_nat
      (mk_parsed
         [mk_record (2024, 12, 19) (str "COSTCO WHOLESALE #456") f0_9;
          mk_record (2024, 12, 20) (str "SHELL") f1_0]
         (str "statement.csv") 2 []
         (mk_mapping (str "Date") (str "Description") (Some (str "Amount")) None))
      (str "statement.csv")
      ([mk_rule (str "COSTCO WHOLESALE") 1 contains_ 0 0 1], []) =
    ((rules, [] ++ docs), Ok (2%nat, c, u)) /\
    length docs = 2%nat /\
    Forall well_formed docs /\
    Forall (fun t => validate t = Ok true) docs /\
    categories_valid rules.
Proof.
  apply (import_all example_strptime (fun _ => []) (fun _ _ => 0)
           Z.of_nat Z.of_nat
           (mk_parsed
              [mk_record (2024, 12, 19) (str "COSTCO WHOLESALE #456") f0_9;
               mk_record (2024, 12, 20) (str "SHELL") f1_0]
              (str "statement.csv") 2 []
              (mk_mapping (str "Date") (str "Description")
                 (Some (str "Amount")) None))
           (str "statement.csv")
           ([mk_rule (str "COSTCO WHOLESALE") 1 contains_ 0 0 1], [])).
  - intros a b. lia.
  - repeat constructor. simpl. lia.
Defined.

End ImportFacts.
